(** * Athan daemon: schedule builder, refresh policy, firing engine and
      resumable segment player.

    Shallow embedding of [athan.py].  The daemon scrapes five prayer times,
    turns them into a sorted list of audio events, polls the clock and fires
    each event once; a long recitation file is played in bounded windows
    whose resume offset is persisted between sessions.

    Conventions of the embedding:
    - a [date] is its proleptic Gregorian ordinal ([date.toordinal()]), so
      that [date.weekday()] is [(ordinal + 6) mod 7] as in CPython;
    - a naive [datetime] is the number of microseconds since midnight of
      ordinal 0; [.date()] and [.time()] are quotient and remainder by the
      length of a day.  The year range 1..9999 of CPython is not modelled;
    - the scraped dictionary [times] is a [gmap string string];
    - raising an exception is [None] in the option monad;
    - audio output, notifications and the socket broadcast are recorded as
      the list of events dispatched (they do not feed back into the state). *)

From stdpp Require Import gmap strings list sorting.
From Stdlib Require Import ZArith Lia Ascii String.

Local Open Scope Z_scope.

#[local] Set Warnings "-clear-no-such-hyp".

(** ** Clock arithmetic *)

Module Clock.

Definition US_PER_SEC : Z := 1000000.
Definition US_PER_DAY : Z := 86400 * US_PER_SEC.

Definition seconds (n : Z) : Z := n * US_PER_SEC.
Definition minutes (n : Z) : Z := seconds (60 * n).

(** [dtime(h, m, s)] and [dtime(h, m)] as microseconds since midnight. *)
Definition hms (h m s : Z) : Z := seconds (h * 3600 + m * 60 + s).
Definition dtime (h m : Z) : Z := hms h m 0.

(** [datetime.combine(d, t)]. *)
Definition combine (d tod : Z) : Z := d * US_PER_DAY + tod.

(** [dt.date()] and [dt.time()]. *)
Definition date_of (dt : Z) : Z := dt `div` US_PER_DAY.
Definition time_of (dt : Z) : Z := dt `mod` US_PER_DAY.

(** [d.weekday()]: Monday is 0, Friday is 4. *)
Definition weekday (d : Z) : Z := (d + 6) `mod` 7.

End Clock.

Import Clock.

(** ** Parsing the scraped time strings

    [parse_today_dt] calls [datetime.strptime] with the directives
    [%I:%M%p] after the date part.  CPython compiles them to the regular
    expression [(1[0-2]|0[1-9]|[1-9]):([0-5]\d|\d)(am|pm)], matched ignoring
    case with ordered alternatives, and rejects the string unless the match
    consumes it entirely.  A mismatch raises [ValueError].

    The strings are the ones the scraper stores: they start with a digit,
    so the white space that the blank of the format would skip does not
    occur.  The [%p] alternatives are those of the C and English locales. *)

Module Strptime.

Definition code (c : ascii) : Z := Z.of_N (Ascii.N_of_ascii c).

Definition in_range (lo hi : Z) (c : ascii) : bool :=
  (lo <=? code c) && (code c <=? hi).

Definition is_digit : ascii -> bool := in_range 48 57.
Definition digit_val (c : ascii) : Z := code c - 48.

(** Case-insensitive comparison with an upper-case letter. *)
Definition is_letter (upper : Z) (c : ascii) : bool :=
  (code c =? upper) || (code c =? upper + 32).

(** [%p] followed by the end of the string: [Some true] is PM. *)
Definition match_p (s : string) : option bool :=
  match s with
  | String a (String m EmptyString) =>
      if is_letter 77 m then
        if is_letter 65 a then Some false
        else if is_letter 80 a then Some true
        else None
      else None
  | _ => None
  end.

Definition or_else {A} (x y : option A) : option A :=
  match x with Some _ => x | None => y end.

(** [%M%p]: [[0-5]\d] is tried before [\d]. *)
Definition match_M (s : string) : option (Z * bool) :=
  or_else
    match s with
    | String c1 (String c2 r) =>
        if in_range 48 53 c1 && is_digit c2
        then pm ← match_p r; Some (10 * digit_val c1 + digit_val c2, pm)
        else None
    | _ => None
    end
    match s with
    | String c1 r =>
        if is_digit c1 then pm ← match_p r; Some (digit_val c1, pm) else None
    | _ => None
    end.

(** The colon and what follows the hour. *)
Definition match_colon (h : Z) (s : string) : option (Z * Z * bool) :=
  match s with
  | String c r =>
      if code c =? 58 then '(m, pm) ← match_M r; Some (h, m, pm) else None
  | _ => None
  end.

(** [%I:%M%p]: [1[0-2]], then [0[1-9]], then [[1-9]]. *)
Definition match_I (s : string) : option (Z * Z * bool) :=
  or_else
    match s with
    | String c1 (String c2 r) =>
        if (code c1 =? 49) && in_range 48 50 c2
        then match_colon (10 + digit_val c2) r else None
    | _ => None
    end
    (or_else
       match s with
       | String c1 (String c2 r) =>
           if (code c1 =? 48) && in_range 49 57 c2
           then match_colon (digit_val c2) r else None
       | _ => None
       end
       match s with
       | String c1 r =>
           if in_range 49 57 c1 then match_colon (digit_val c1) r else None
       | _ => None
       end).

(** Twelve-hour clock to hour of the day, as [_strptime] does. *)
Definition hour24 (h : Z) (pm : bool) : Z :=
  if pm then (if h =? 12 then h else h + 12)
  else (if h =? 12 then 0 else h).

(** Time of day, in microseconds, denoted by a string such as
    [3:45PM]; [None] when [strptime] raises. *)
Definition parse_clock (s : string) : option Z :=
  '(h, m, pm) ← match_I s; Some (dtime (hour24 h pm) m).

End Strptime.

(** [parse_today_dt]: the parsed time of day on today's date. *)
Definition parse_today_dt (today : Z) (hhmm_ampm : string) : option Z :=
  tod ← Strptime.parse_clock hhmm_ampm; Some (combine today tod).

(** ** Events and configuration *)

Inductive kind := Play | Quran.

Record event := Event {
  ev_label : string;
  ev_at : Z;
  ev_kind : kind;
  ev_payload : option string
}.

#[global] Instance kind_eq_dec : EqDecision kind.
Proof. solve_decision. Defined.
#[global] Instance event_eq_dec : EqDecision event.
Proof. solve_decision. Defined.

Definition PRAYERS : list string := ["Fajr"; "Dhuhr"; "Asr"; "Maghrib"; "Isha"].

Definition SOUND_GENERAL : string := "./audio/athanfull.mp3".
Definition SOUND_FAJR : string := "./audio/athanfullfajr.mp3".
Definition SOUND_ISHA_PRE : string := "./audio/athkar_masaa.mp3".
Definition SOUND_MORNING : string := "./audio/morning_athkar.mp3".
Definition SOUND_KAHF : string := "./audio/alkahf.mp3".

Definition PRECLIP_SECONDS : Z := 600.
Definition POLL_SEC : Z := 5.
Definition TRIGGER_WINDOW_SEC : Z := 60.

Definition sound_for (prayer : string) : string :=
  if String.eqb prayer "Fajr" then SOUND_FAJR else SOUND_GENERAL.

(** Truth value of a Python string: non-empty. *)
Definition truthy (s : string) : bool := negb (String.eqb s "").

(** ** Stable sort by key

    [list.sort(key=...)] is stable and ascending.  The stable ascending
    arrangement of a list is unique, so insertion from the right, placing an
    element before the first one whose key is not smaller, computes the same
    list as CPython's merge sort. *)

Section StableSort.
Context {A : Type} (key : A -> Z).

Fixpoint insert_by (x : A) (l : list A) : list A :=
  match l with
  | [] => [x]
  | y :: l' => if key x <=? key y then x :: l else y :: insert_by x l'
  end.

Fixpoint sort_by (l : list A) : list A :=
  match l with
  | [] => []
  | x :: l' => insert_by x (sort_by l')
  end.
End StableSort.

(** ** The schedule builder *)

(** What one run of the builder observes of the outside world: the scraped
    dictionary ([None] when the request or the parser raises), the clock
    (read through [date.today()]; one run is taken to observe one instant)
    and whether the Isha pre-file is on disk. *)
Record Env := {
  env_fetch : option (gmap string string);
  env_clock : Z;
  env_isha_pre_exists : bool
}.

Definition env_today (env : Env) : Z := date_of (env_clock env).

Section Builder.
Variable times : gmap string string.
Variable today : Z.

(** The guard of the pre-clip: not for Isha, and not for Asr on a
    Friday. *)
Definition pre_applies (p : string) : bool :=
  negb (String.eqb p "Isha")
  && negb (String.eqb p "Asr" && (weekday today =? 4)).

(** What one prayer found in [times] appends. *)
Definition prayer_events (p : string) (dtm : Z) : list event :=
  let audio := sound_for p in
  (if truthy audio then [Event p dtm Play (Some audio)] else [])
  ++ (if pre_applies p
      then [Event (p +:+ "-QuranPre") (dtm - minutes 5) Quran None]
      else []).

(** The loop over [PRAYERS], appending to [schedule]. *)
Fixpoint prayers_loop (ps : list string) (schedule : list event)
  : option (list event) :=
  match ps with
  | [] => Some schedule
  | p :: ps' =>
      match times !! p with
      | None => prayers_loop ps' schedule
      | Some s =>
          dtm ← parse_today_dt today s;
          prayers_loop ps' (schedule ++ prayer_events p dtm)
      end
  end.

(** The dedicated Isha pre-event, [timedelta(seconds=19.45*60)] earlier;
    the float product is 1167.0 and a timedelta holds whole
    microseconds. *)
Definition isha_pre (exists_pre : bool) (schedule : list event)
  : option (list event) :=
  match times !! "Isha" with
  | Some s =>
      if exists_pre then
        isha_dt ← parse_today_dt today s;
        Some (schedule ++
              [Event "Isha-Pre" (isha_dt - seconds 1167) Play
                     (Some SOUND_ISHA_PRE)])
      else Some schedule
  | None => Some schedule
  end.

Definition morning (schedule : list event) : list event :=
  schedule ++
  [Event "Morning-Athkar" (combine today (dtime 6 30)) Play
         (Some SOUND_MORNING)].

Definition kahf (schedule : list event) : option (list event) :=
  if weekday today =? 4 then
    match times !! "Asr" with
    | Some s =>
        asr_dt ← parse_today_dt today s;
        Some (schedule ++
              [Event "Kahf-PreAsr" (asr_dt - minutes 31) Play
                     (Some SOUND_KAHF)])
    | None => Some schedule
    end
  else Some schedule.

(** The list as appended, before the final sort. *)
Definition emitted (exists_pre : bool) : option (list event) :=
  schedule ← prayers_loop PRAYERS [];
  schedule ← isha_pre exists_pre schedule;
  kahf (morning schedule).
End Builder.

Definition emit_today_schedule (env : Env) : option (list event) :=
  times ← env_fetch env;
  emitted times (env_today env) (env_isha_pre_exists env).

Definition build_today_schedule (env : Env) : option (list event) :=
  sort_by ev_at <$> emit_today_schedule env.

(** The scraped strings of the five prayers are ones [strptime] accepts. *)
Definition valid_times (times : gmap string string) : Prop :=
  ∀ p s, p ∈ PRAYERS -> times !! p = Some s ->
         is_Some (Strptime.parse_clock s).

(** Every label the builder can produce, in the order of emission. *)
Definition ALL_LABELS : list string :=
  ["Fajr"; "Fajr-QuranPre"; "Dhuhr"; "Dhuhr-QuranPre"; "Asr"; "Asr-QuranPre";
   "Maghrib"; "Maghrib-QuranPre"; "Isha";
   "Isha-Pre"; "Morning-Athkar"; "Kahf-PreAsr"].

(** The labels a run on the day [today] can produce, in the order of
    emission. *)
Definition labels_on (today : Z) : list string :=
  (PRAYERS ≫= λ p, p :: if pre_applies today p then [p +:+ "-QuranPre"] else [])
  ++ ["Isha-Pre"; "Morning-Athkar"; "Kahf-PreAsr"].

(** The same events on the day [d]: fire times given as times of day. *)
Definition on_day (d : Z) (e : event) : event :=
  Event (ev_label e) (combine d (ev_at e)) (ev_kind e) (ev_payload e).

(** The input of the worked example. *)
Definition spec_times : gmap string string :=
  <["Fajr" := "05:30AM"]> (<["Dhuhr" := "12:15PM"]> (<["Asr" := "3:45PM"]>
  (<["Maghrib" := "6:50PM"]> (<["Isha" := "8:10PM"]> ∅)))).

(** The events of the worked example in the order of emission, and sorted;
    fire times are times of day. *)
Definition spec_emitted : list event :=
  [Event "Fajr" (hms 5 30 0) Play (Some SOUND_FAJR);
   Event "Fajr-QuranPre" (hms 5 25 0) Quran None;
   Event "Dhuhr" (hms 12 15 0) Play (Some SOUND_GENERAL);
   Event "Dhuhr-QuranPre" (hms 12 10 0) Quran None;
   Event "Asr" (hms 15 45 0) Play (Some SOUND_GENERAL);
   Event "Asr-QuranPre" (hms 15 40 0) Quran None;
   Event "Maghrib" (hms 18 50 0) Play (Some SOUND_GENERAL);
   Event "Maghrib-QuranPre" (hms 18 45 0) Quran None;
   Event "Isha" (hms 20 10 0) Play (Some SOUND_GENERAL);
   Event "Isha-Pre" (hms 19 50 33) Play (Some SOUND_ISHA_PRE);
   Event "Morning-Athkar" (hms 6 30 0) Play (Some SOUND_MORNING)].

Definition spec_day : list event :=
  [Event "Fajr-QuranPre" (hms 5 25 0) Quran None;
   Event "Fajr" (hms 5 30 0) Play (Some SOUND_FAJR);
   Event "Morning-Athkar" (hms 6 30 0) Play (Some SOUND_MORNING);
   Event "Dhuhr-QuranPre" (hms 12 10 0) Quran None;
   Event "Dhuhr" (hms 12 15 0) Play (Some SOUND_GENERAL);
   Event "Asr-QuranPre" (hms 15 40 0) Quran None;
   Event "Asr" (hms 15 45 0) Play (Some SOUND_GENERAL);
   Event "Maghrib-QuranPre" (hms 18 45 0) Quran None;
   Event "Maghrib" (hms 18 50 0) Play (Some SOUND_GENERAL);
   Event "Isha-Pre" (hms 19 50 33) Play (Some SOUND_ISHA_PRE);
   Event "Isha" (hms 20 10 0) Play (Some SOUND_GENERAL)].

(** Tuesday 3 November 2026 at 01:00, Isha pre-file present. *)
Definition spec_env : Env :=
  {| env_fetch := Some spec_times;
     env_clock := combine 739923 (dtime 1 0);
     env_isha_pre_exists := true |}.

(** Friday 6 November 2026 at 01:00. *)
Definition friday_env : Env :=
  {| env_fetch := Some spec_times;
     env_clock := combine 739926 (dtime 1 0);
     env_isha_pre_exists := true |}.

(** Ascending by fire time, ties allowed. *)
Definition ascending (l : list event) : Prop :=
  Sorted (λ a b, ev_at a <= ev_at b) l.

(** The events that fire at [t], in list order. *)
Definition firing_at (t : Z) (l : list event) : list event :=
  filter (λ e, ev_at e = t) l.

(** ** Refresh policy *)

Definition should_refresh (now : Z) (last_refresh_date : option Z)
    (refreshed_after_2am : bool) : bool :=
  match last_refresh_date with
  | None => true
  | Some d =>
      if negb (date_of now =? d) then true
      else if negb refreshed_after_2am && (dtime 2 0 <=? time_of now) then true
      else false
  end.

(** ** The engine loop of [main] *)

(** Keys of the fired set: [(label, t.date(), t.time())]. *)
Definition key_of (e : event) : string * Z * Z :=
  (ev_label e, date_of (ev_at e), time_of (ev_at e)).

Record State := {
  schedule : list event;
  fired : gset (string * Z * Z);
  last_refresh_date : option Z;
  refreshed_after_2am : bool
}.

(** [0 <= (now - t).total_seconds() < TRIGGER_WINDOW_SEC].  The float is
    the correctly rounded quotient of the whole microseconds by 10^6, so
    both comparisons agree with the ones on whole microseconds. *)
Definition due (now : Z) (e : event) : bool :=
  let diff := now - ev_at e in
  (0 <=? diff) && (diff <? seconds TRIGGER_WINDOW_SEC).

(** The [for] loop over the schedule: the events dispatched, in order, and
    the fired set afterwards. *)
Fixpoint fire_loop (now : Z) (sched : list event) (fired : gset (string * Z * Z))
  : list event * gset (string * Z * Z) :=
  match sched with
  | [] => ([], fired)
  | e :: rest =>
      if decide (key_of e ∈ fired) then fire_loop now rest fired
      else if due now e then
        let '(log, fired') := fire_loop now rest ({[key_of e]} ∪ fired) in
        (e :: log, fired')
      else fire_loop now rest fired
  end.

(** What one iteration of the [while] loop reads from the outside: the
    clock at its top ([datetime.now()]), the world the builder sees if it
    is called, and the clock at the later [date.today()] that stamps a
    successful rebuild. *)
Record Tick := {
  tk_now : Z;
  tk_env : Env;
  tk_today : Z
}.

Record Outcome := {
  out_state : State;
  out_log : list event;
  out_sleep : Z
}.

Definition late_flag (now : Z) (s : State) : bool :=
  negb (refreshed_after_2am s) && (dtime 2 0 <=? time_of now)
  && bool_decide (Some (date_of now) = last_refresh_date s).

(** Events are evaluated, then the flag is brought up to date, then the
    loop sleeps for the poll interval. *)
Definition fire_and_sleep (now : Z) (s : State) : Outcome :=
  let '(log, fired') := fire_loop now (schedule s) (fired s) in
  let r := if late_flag now s then true else refreshed_after_2am s in
  {| out_state := {| schedule := schedule s; fired := fired';
                     last_refresh_date := last_refresh_date s;
                     refreshed_after_2am := r |};
     out_log := log;
     out_sleep := POLL_SEC |}.

Definition tick (s : State) (i : Tick) : Outcome :=
  let now := tk_now i in
  if should_refresh now (last_refresh_date s) (refreshed_after_2am s) then
    match build_today_schedule (tk_env i) with
    | Some sched =>
        fire_and_sleep now
          {| schedule := sched; fired := ∅;
             last_refresh_date := Some (date_of (tk_today i));
             refreshed_after_2am := dtime 2 0 <=? time_of now |}
    | None => {| out_state := s; out_log := []; out_sleep := 300 |}
    end
  else fire_and_sleep now s.

(** Whether an iteration replaces the schedule. *)
Definition rebuilds (s : State) (i : Tick) : bool :=
  should_refresh (tk_now i) (last_refresh_date s) (refreshed_after_2am s)
  && bool_decide (is_Some (build_today_schedule (tk_env i))).

(** One attempt of the initial fetch: the builder's world, then the clock
    at [date.today()] and at [datetime.now()].  [None] is a failed attempt,
    retried after 60 seconds. *)
Record Attempt := {
  at_env : Env;
  at_today : Z;
  at_now : Z
}.

Definition initial_fetch (a : Attempt) : option State :=
  sched ← build_today_schedule (at_env a);
  Some {| schedule := sched; fired := ∅;
          last_refresh_date := Some (date_of (at_today a));
          refreshed_after_2am := dtime 2 0 <=? time_of (at_now a) |}.

(** A run of the steady-state loop: final state and everything dispatched. *)
Fixpoint run (s : State) (tks : list Tick) : State * list event :=
  match tks with
  | [] => (s, [])
  | i :: tks' =>
      let o := tick s i in
      let '(s', log) := run (out_state o) tks' in
      (s', out_log o ++ log)
  end.

(** No iteration of the run replaces the schedule: one generation. *)
Fixpoint same_generation (s : State) (tks : list Tick) : Prop :=
  match tks with
  | [] => True
  | i :: tks' => rebuilds s i = false ∧ same_generation (out_state (tick s i)) tks'
  end.

(** States the loop can be in. *)
Inductive reachable : State -> Prop :=
  | reach_init a s : initial_fetch a = Some s -> reachable s
  | reach_tick s i : reachable s -> reachable (out_state (tick s i)).

(** *** Instants of the rebuilds (ghost history)

    The instant at which a schedule was built is the clock its builder run
    observed.  A clock that does not run backwards orders the three reads
    of an iteration and those of a first attempt. *)

Definition tick_ordered (i : Tick) : Prop :=
  tk_now i <= env_clock (tk_env i) <= tk_today i.

Definition attempt_ordered (a : Attempt) : Prop :=
  env_clock (at_env a) <= at_today a <= at_now a.

(** An iteration starts no earlier than the previous one finished
    sleeping. *)
Fixpoint chronological (s : State) (t : Z) (tks : list Tick) : Prop :=
  match tks with
  | [] => True
  | i :: tks' =>
      t <= tk_now i ∧ tick_ordered i ∧
      chronological (out_state (tick s i))
        (tk_today i + seconds (out_sleep (tick s i))) tks'
  end.

Fixpoint rebuild_instants (s : State) (tks : list Tick) : list Z :=
  match tks with
  | [] => []
  | i :: tks' =>
      (if rebuilds s i then [env_clock (tk_env i)] else [])
      ++ rebuild_instants (out_state (tick s i)) tks'
  end.

(** The flag is backed by a rebuild of that day at or after 02:00. *)
Definition flag_justified (s : State) (built : list Z) : Prop :=
  refreshed_after_2am s = true ->
  ∃ b, b ∈ built ∧ last_refresh_date s = Some (date_of b)
       ∧ dtime 2 0 <= time_of b.

(** The clock reads of an iteration fall on one calendar day; those of a
    first attempt fall on one day and on one side of 02:00. *)
Definition tick_same_day (i : Tick) : Prop :=
  date_of (tk_now i) = date_of (tk_today i).

Definition attempt_same_day (a : Attempt) : Prop :=
  date_of (env_clock (at_env a)) = date_of (at_today a)
  ∧ (dtime 2 0 <= time_of (at_now a) ->
     dtime 2 0 <= time_of (env_clock (at_env a))).

(** *** Sample runs *)

(** The daemon started on 3 November 2026 at 03:00 with the times of the
    worked example. *)
Definition spec_attempt : Attempt :=
  {| at_env := {| env_fetch := Some spec_times;
                  env_clock := combine 739923 (dtime 3 0);
                  env_isha_pre_exists := true |};
     at_today := combine 739923 (dtime 3 0);
     at_now := combine 739923 (dtime 3 0) |}.

Definition spec_state : State :=
  {| schedule := on_day 739923 <$> spec_day; fired := ∅;
     last_refresh_date := Some 739923; refreshed_after_2am := true |}.

(** Two iterations that both read 05:30:10. *)
Definition fajr_tick : Tick :=
  {| tk_now := combine 739923 (hms 5 30 10);
     tk_env := {| env_fetch := Some spec_times;
                  env_clock := combine 739923 (hms 5 30 10);
                  env_isha_pre_exists := true |};
     tk_today := combine 739923 (hms 5 30 10) |}.

(** Just after midnight of the next day, the source unreachable. *)
Definition outage_tick : Tick :=
  {| tk_now := combine 739924 (hms 0 0 2);
     tk_env := {| env_fetch := None;
                  env_clock := combine 739924 (hms 0 0 3);
                  env_isha_pre_exists := true |};
     tk_today := combine 739924 (hms 0 0 3) |}.

(** A start at 01:00, a failed refresh at 02:00:03, and a refresh that
    begins at 23:59:58 and whose fetch returns one second after midnight. *)
Definition early_attempt : Attempt :=
  {| at_env := {| env_fetch := Some spec_times;
                  env_clock := combine 739923 (hms 1 0 0);
                  env_isha_pre_exists := true |};
     at_today := combine 739923 (hms 1 0 1);
     at_now := combine 739923 (hms 1 0 1) |}.

Definition early_state : State :=
  {| schedule := on_day 739923 <$> spec_day; fired := ∅;
     last_refresh_date := Some 739923; refreshed_after_2am := false |}.

Definition down_tick : Tick :=
  {| tk_now := combine 739923 (hms 2 0 3);
     tk_env := {| env_fetch := None;
                  env_clock := combine 739923 (hms 2 0 23);
                  env_isha_pre_exists := true |};
     tk_today := combine 739923 (hms 2 0 23) |}.

(** The state in which that run ends. *)
Definition midnight_state : State :=
  {| schedule := on_day 739924 <$> spec_day; fired := ∅;
     last_refresh_date := Some 739924; refreshed_after_2am := true |}.

Definition midnight_tick : Tick :=
  {| tk_now := combine 739923 (hms 23 59 58);
     tk_env := {| env_fetch := Some spec_times;
                  env_clock := combine 739924 (hms 0 0 1);
                  env_isha_pre_exists := true |};
     tk_today := combine 739924 (hms 0 0 2) |}.

(** ** The segment player

    Time is counted in whole units of one resolution (seconds in the
    examples); [time.sleep(x)] advances the clock by exactly [x] and
    nothing else takes time.  [fuel] bounds the iterations of the
    [while] loop. *)

Inductive seg_outcome :=
  | Saved (next_offset : Z)   (* [save_offset(next_offset)] was called *)
  | NoOp                      (* logged and returned, nothing saved *)
  | Raised                    (* an exception ended the playback thread *)
  | Unfinished.               (* the fuel ran out *)

Inductive loop_outcome :=
  | LoopDone (clock offset : Z)
  | LoopRaised
  | LoopFuel.

Fixpoint play_loop (fuel : nat) (duration end_time clock offset : Z)
  : loop_outcome :=
  match fuel with
  | O => LoopFuel
  | S fuel' =>
      if clock <? end_time then
        let remaining_clip_time := duration - offset in
        let remaining_total_time := end_time - clock in
        let play_time := Z.min remaining_clip_time remaining_total_time in
        (* [time.sleep] rejects a negative length with [ValueError] *)
        if play_time <? 0 then LoopRaised
        else play_loop fuel' duration end_time (clock + play_time) 0
      else LoopDone clock offset
  end.

(** [play_quran_segment] with the window length as a parameter.
    [probe] is what [_get_quran_duration_sec] returns, [stored] what
    [load_offset] returns, [start] the clock when the window opens. *)
Definition play_quran_segment_for (window : Z) (fuel : nat)
    (have_pygame file_exists : bool) (probe : option Z) (stored start : Z)
  : seg_outcome :=
  if negb have_pygame then NoOp
  else if negb file_exists then NoOp
  else match probe with
  | None => NoOp
  | Some duration =>
      if (duration =? 0) || (duration <=? 0) then NoOp
      else
        let offset := stored `mod` duration in
        let end_time := start + window in
        match play_loop fuel duration end_time start offset with
        | LoopDone clock offset =>
            Saved ((offset + (clock - (end_time - window))) `mod` duration)
        | LoopRaised => Raised
        | LoopFuel => Unfinished
        end
  end.

Definition play_quran_segment := play_quran_segment_for PRECLIP_SECONDS.

(** What the docstring asks to be saved: the position in the resource at
    which the sound stops when playback starts at the stored offset, wraps
    at [duration] and lasts [window]. *)
Definition position_after (duration window offset : Z) : Z :=
  (offset `mod` duration + window) `mod` duration.

(** ** Labels of a generation, by the prayers present *)

(** The labels the builder appends, in order, when [has] tells which
    prayers are in [times]. *)
Definition labels_for (has : string -> bool) (today : Z) (exists_pre : bool)
  : list string :=
  (PRAYERS ≫= λ p,
     if has p
     then p :: (if pre_applies today p then [p +:+ "-QuranPre"] else [])
     else [])
  ++ (if has "Isha" && exists_pre then ["Isha-Pre"] else [])
  ++ ["Morning-Athkar"]
  ++ (if (weekday today =? 4) && has "Asr" then ["Kahf-PreAsr"] else []).

Definition present (times : gmap string string) (p : string) : bool :=
  bool_decide (is_Some (times !! p)).

(** What the loop over [PRAYERS] appends for one prayer, when it gets
    past it. *)
Definition events_of (times : gmap string string) (today : Z) (p : string)
  : list event :=
  match times !! p with
  | Some s =>
      match parse_today_dt today s with
      | Some dtm => prayer_events today p dtm
      | None => []
      end
  | None => []
  end.

Definition isha_pre_events (times : gmap string string) (today : Z)
    (exists_pre : bool) : list event :=
  match times !! "Isha" with
  | Some s =>
      match parse_today_dt today s with
      | Some isha_dt =>
          if exists_pre
          then [Event "Isha-Pre" (isha_dt - seconds 1167) Play
                      (Some SOUND_ISHA_PRE)]
          else []
      | None => []
      end
  | None => []
  end.

Definition kahf_events (times : gmap string string) (today : Z)
  : list event :=
  match times !! "Asr" with
  | Some s =>
      match parse_today_dt today s with
      | Some asr_dt =>
          if weekday today =? 4
          then [Event "Kahf-PreAsr" (asr_dt - minutes 31) Play
                      (Some SOUND_KAHF)]
          else []
      | None => []
      end
  | None => []
  end.

Definition morning_event (today : Z) : event :=
  Event "Morning-Athkar" (combine today (dtime 6 30)) Play (Some SOUND_MORNING).

(** ** Text of a twelve-hour clock time

    The strings the scraper can store have one or two digits for the hour,
    two for the minute and [AM] or [PM]. *)

Definition digit_char (d : Z) : ascii := ascii_of_N (Z.to_N (48 + d)).

Definition two_digits (n : Z) : string :=
  String (digit_char (n `div` 10)) (String (digit_char (n `mod` 10)) "").

(** [pad] writes an hour below ten with a leading zero. *)
Definition clock_text (pad : bool) (h m : Z) (pm : bool) : string :=
  (if pad || (10 <=? h) then two_digits h else String (digit_char h) "")
  +:+ ":" +:+ two_digits m +:+ (if pm then "PM" else "AM").

(** What [strptime] makes of such a text. *)
Definition clock_value (h m : Z) (pm : bool) : option Z :=
  if (1 <=? h) && (h <=? 12) && (m <=? 59)
  then Some (dtime (if pm then (if h =? 12 then 12 else h + 12)
                    else (if h =? 12 then 0 else h)) m)
  else None.

(** ** The status page ([ui.py])

    The page scrapes the same source with the same regular expression and
    parses with the same [parse_today_dt]; [PRAYERS] holds the same five
    names.  A [dict] is its list of items in insertion order. *)

Module Ui.

(** [d[k] = v]: an existing key keeps its place, a new key goes last. *)
Fixpoint dict_set (k : string) (v : Z) (d : list (string * Z))
  : list (string * Z) :=
  match d with
  | [] => [(k, v)]
  | (k', v') :: d' =>
      if String.eqb k' k then (k', v) :: d' else (k', v') :: dict_set k v d'
  end.

Section BuildSchedule.
Variable times : gmap string string.
Variable today : Z.

Fixpoint schedule_loop (ps : list string) (schedule : list (string * Z))
  : option (list (string * Z)) :=
  match ps with
  | [] => Some schedule
  | p :: ps' =>
      match times !! p with
      | Some s =>
          dt ← parse_today_dt today s;
          schedule_loop ps' (dict_set p dt schedule)
      | None => schedule_loop ps' schedule
      end
  end.
End BuildSchedule.

Definition build_schedule (env : Env) : option (list (string * Z)) :=
  times ← env_fetch env;
  schedule_loop times (env_today env) PRAYERS [].

(** The loop of [get_current_and_next] over [enumerate(ordered)], from
    index [i] on.  [next] stands for the pair [next_p, next_time]: both are
    assigned together, and [None] is the pair of two [None]s. *)
Fixpoint scan (now : Z) (ordered rest : list (string * Z)) (i : nat)
    (current : option string) (next : option (string * Z))
  : option string * option (string * Z) :=
  match rest with
  | [] => (current, next)
  | (prayer, t) :: rest' =>
      if t <=? now then
        scan now ordered rest' (S i) (Some prayer) (ordered !! S i)
      else if (now <? t) && bool_decide (next = None) then
        scan now ordered rest' (S i) current (Some (prayer, t))
      else scan now ordered rest' (S i) current next
  end.

(** [None] is the [IndexError] of [ordered[0]] on an empty schedule. *)
Definition get_current_and_next (now : Z) (schedule : list (string * Z))
  : option (string * option (string * Z)) :=
  let ordered := sort_by snd schedule in
  let '(current, next) := scan now ordered ordered 0 None None in
  match current with
  | Some c => Some (c, next)
  | None =>
      match ordered !! 0%nat with
      | Some first => Some ("Isha", Some first)
      | None => None
      end
  end.

End Ui.

(** The prayers of a sorted list whose time has come, and those still
    ahead. *)
Definition passed (now : Z) (l : list (string * Z)) : list (string * Z) :=
  filter (λ x, x.2 <= now) l.

Definition ahead (now : Z) (l : list (string * Z)) : list (string * Z) :=
  filter (λ x, now < x.2) l.

(** The item the page stores for one prayer, when its loop gets past
    it. *)
Definition items_of (times : gmap string string) (today : Z) (p : string)
  : list (string * Z) :=
  match times !! p with
  | Some s =>
      match parse_today_dt today s with
      | Some dt => [(p, dt)]
      | None => []
      end
  | None => []
  end.

(** *** Further sample inputs *)

Definition fajr_event : event :=
  Event "Fajr" (combine 739923 (hms 5 30 0)) Play (Some SOUND_FAJR).

(** An iteration that reads 05:31:10, after the window of Fajr. *)
Definition late_tick : Tick :=
  {| tk_now := combine 739923 (hms 5 31 10);
     tk_env := {| env_fetch := Some spec_times;
                  env_clock := combine 739923 (hms 5 31 10);
                  env_isha_pre_exists := true |};
     tk_today := combine 739923 (hms 5 31 10) |}.

(** The first iteration of the next day, the source reachable. *)
Definition newday_tick : Tick :=
  {| tk_now := combine 739924 (hms 0 0 2);
     tk_env := {| env_fetch := Some spec_times;
                  env_clock := combine 739924 (hms 0 0 3);
                  env_isha_pre_exists := true |};
     tk_today := combine 739924 (hms 0 0 4) |}.

(** Only Fajr was scraped, as 6:30AM. *)
Definition fajr_only_env : Env :=
  {| env_fetch := Some (<["Fajr" := "6:30AM"]> ∅);
     env_clock := combine 739923 (dtime 1 0);
     env_isha_pre_exists := true |}.

Definition fajr_only_schedule : list event :=
  [Event "Fajr-QuranPre" (combine 739923 (hms 6 25 0)) Quran None;
   Event "Fajr" (combine 739923 (hms 6 30 0)) Play (Some SOUND_FAJR);
   morning_event 739923].

(** Fajr and Dhuhr of 3 November 2026, and a clock reading of 06:00. *)
Definition two_items : list (string * Z) :=
  [("Dhuhr", combine 739923 (hms 12 15 0));
   ("Fajr", combine 739923 (hms 5 30 0))].

(** * Properties *)

(** ** Clock arithmetic *)

Lemma US_PER_DAY_pos : 0 < US_PER_DAY.
Proof. reflexivity. Qed.

Lemma time_of_range dt : 0 <= time_of dt < US_PER_DAY.
Proof. apply Z.mod_pos_bound, US_PER_DAY_pos. Qed.

Lemma date_time_split dt : dt = combine (date_of dt) (time_of dt).
Proof.
  unfold combine, date_of, time_of.
  rewrite (Z.mul_comm _ US_PER_DAY). apply Z.div_mod. discriminate.
Qed.

Lemma date_of_combine d tod :
  0 <= tod < US_PER_DAY -> date_of (combine d tod) = d.
Proof.
  intros H. unfold date_of, combine.
  rewrite Z.add_comm, Z.div_add by discriminate.
  rewrite Z.div_small; lia.
Qed.

Lemma time_of_combine d tod :
  0 <= tod < US_PER_DAY -> time_of (combine d tod) = tod.
Proof.
  intros H. unfold time_of, combine.
  rewrite Z.add_comm, Z.mod_add by discriminate.
  apply Z.mod_small; lia.
Qed.

(** A datetime is determined by its date and its time of day. *)
Lemma date_time_inj a b :
  date_of a = date_of b -> time_of a = time_of b -> a = b.
Proof.
  intros Hd Ht. rewrite (date_time_split a), (date_time_split b).
  by rewrite Hd, Ht.
Qed.

Lemma date_of_mono a b : a <= b -> date_of a <= date_of b.
Proof. intros H. apply Z.div_le_mono; [reflexivity | done]. Qed.

(** ** Refresh policy *)

(** C4: [should_refresh] answers true exactly when there was no refresh
    yet, or the date of [now] is not the date of the last refresh, or the
    day had no refresh after 02:00 and the time of [now] is 02:00 or
    later; otherwise it answers false. *)
Theorem should_refresh_iff (now : Z) (last : option Z) (after2 : bool) :
  should_refresh now last after2 = true
  ↔ last = None
    ∨ (∃ d, last = Some d ∧ date_of now ≠ d)
    ∨ (after2 = false ∧ dtime 2 0 <= time_of now).
Proof.
  unfold should_refresh. destruct last as [d|].
  - destruct (Z.eqb_spec (date_of now) d) as [Hd|Hd]; simpl.
    + destruct after2; simpl.
      * split; [discriminate|].
        intros [?|[(d' & [= <-] & Hne)|[? _]]]; done.
      * destruct (Z.leb_spec (dtime 2 0) (time_of now)); simpl.
        -- split; [intros _; right; right; done | done].
        -- split; [discriminate|].
           intros [?|[(d' & [= <-] & Hne)|[_ ?]]]; [done|done|lia].
    + split; [intros _; right; left; eauto | done].
  - split; [intros _; by left | done].
Qed.

(** ** Segment player *)

(** Once the window is open the loop runs to its end and leaves the
    offset at zero, whatever the offset it started from. *)
Lemma play_loop_runs_out (duration end_time : Z) :
  0 < duration ->
  ∀ (fuel : nat) (clock offset : Z),
    0 <= offset < duration -> clock < end_time ->
    (Z.to_nat (end_time - clock) < fuel)%nat ->
    play_loop fuel duration end_time clock offset = LoopDone end_time 0.
Proof.
  intros Hd. induction fuel as [|fuel IH]; intros clock offset Ho Hc Hf; [lia|].
  simpl. destruct (Z.ltb_spec clock end_time) as [_|?]; [|lia].
  set (p := Z.min (duration - offset) (end_time - clock)).
  assert (1 <= p <= end_time - clock) as Hp by (unfold p; lia).
  destruct (Z.ltb_spec p 0) as [?|_]; [lia|].
  destruct (Z.eq_dec (clock + p) end_time) as [->|Hne].
  - destruct fuel as [|fuel']; [lia|]. simpl.
    by rewrite Z.ltb_irrefl.
  - apply IH; lia.
Qed.

(** What the player saves: the window length modulo the duration.  The
    stored offset it started from does not enter the result. *)
Lemma segment_saves_window (window duration stored start : Z) (fuel : nat) :
  0 < duration -> 0 < window -> (Z.to_nat window < fuel)%nat ->
  play_quran_segment_for window fuel true true (Some duration) stored start
  = Saved (window `mod` duration).
Proof.
  intros Hd Hw Hf. unfold play_quran_segment_for. simpl.
  destruct (Z.eqb_spec duration 0) as [?|_]; [lia|].
  destruct (Z.leb_spec duration 0) as [?|_]; [lia|]. simpl.
  rewrite (play_loop_runs_out duration (start + window) Hd).
  - f_equal. f_equal. lia.
  - by apply Z.mod_pos_bound.
  - lia.
  - replace (start + window - start) with window by lia. done.
Qed.

(** C5: with a resource of 600 s and a window of 600 s from offset 0 the
    saved offset is congruent to 0 modulo 600; with a resource of 400 s it
    is congruent to 200 modulo 400. *)
Theorem segment_round_trip_instances (start : Z) (fuel : nat) :
  (600 < fuel)%nat ->
  (∃ saved, play_quran_segment fuel true true (Some 600) 0 start = Saved saved
            ∧ saved `mod` 600 = 0 `mod` 600)
  ∧ (∃ saved, play_quran_segment fuel true true (Some 400) 0 start = Saved saved
              ∧ saved `mod` 400 = 200 `mod` 400).
Proof.
  intros Hf. unfold play_quran_segment, PRECLIP_SECONDS.
  split; eexists; (split; [apply segment_saves_window; lia | reflexivity]).
Qed.

Lemma segment_round_trip_instances_witness :
  (600 < 601)%nat
  ∧ (∃ saved, play_quran_segment 601 true true (Some 600) 0 0 = Saved saved
              ∧ saved `mod` 600 = 0 `mod` 600)
  ∧ (∃ saved, play_quran_segment 601 true true (Some 400) 0 0 = Saved saved
              ∧ saved `mod` 400 = 200 `mod` 400).
Proof.
  split; [lia | apply (segment_round_trip_instances 0 601); lia].
Defined.

(** C2: a session that starts 600 s into a resource of 3600 s and plays
    for the window of 600 s stops at 1200 s, but the offset saved is
    600 s: the next session does not resume where this one stopped. *)
Theorem segment_resume_position_lost :
  play_quran_segment 601 true true (Some 3600) 600 0 = Saved 600
  ∧ position_after 3600 PRECLIP_SECONDS 600 = 1200.
Proof. split; vm_compute; reflexivity. Qed.

(** ** Stable sort *)

Section StableSortFacts.
Context {A : Type} (key : A -> Z).

Lemma insert_by_perm x l : insert_by key x l ≡ₚ x :: l.
Proof.
  induction l as [|y l IH]; simpl; [done|].
  destruct (key x <=? key y); [done|].
  rewrite IH. apply Permutation_swap.
Qed.

Lemma sort_by_perm l : sort_by key l ≡ₚ l.
Proof.
  induction l as [|x l IH]; simpl; [done|].
  by rewrite insert_by_perm, IH.
Qed.

Lemma insert_by_hd x y l :
  key y <= key x -> HdRel (λ a b, key a <= key b) y l ->
  HdRel (λ a b, key a <= key b) y (insert_by key x l).
Proof.
  intros Hyx Hhd. destruct l as [|z l]; simpl.
  - by constructor.
  - destruct (key x <=? key z); constructor; [done|].
    by inversion Hhd.
Qed.

Lemma insert_by_sorted x l :
  Sorted (λ a b, key a <= key b) l ->
  Sorted (λ a b, key a <= key b) (insert_by key x l).
Proof.
  induction 1 as [|y l Hs IH Hhd]; simpl.
  - repeat constructor.
  - destruct (Z.leb_spec (key x) (key y)).
    + constructor; [by constructor|by constructor].
    + constructor; [done|]. apply insert_by_hd; [lia|done].
Qed.

Lemma sort_by_sorted l : Sorted (λ a b, key a <= key b) (sort_by key l).
Proof.
  induction l as [|x l IH]; simpl; [constructor|].
  by apply insert_by_sorted.
Qed.

(** Insertion leaves the elements of any one key in their order. *)
Lemma insert_by_filter (k : Z) x l :
  filter (λ a, key a = k) (insert_by key x l)
  = filter (λ a, key a = k) (x :: l).
Proof.
  induction l as [|y l IH]; simpl; [done|].
  destruct (Z.leb_spec (key x) (key y)) as [|Hlt]; [done|].
  rewrite (filter_cons _ y), IH, !(filter_cons _ x), !(filter_cons _ y).
  repeat case_decide; try done. lia.
Qed.

Lemma sort_by_stable (k : Z) l :
  filter (λ a, key a = k) (sort_by key l) = filter (λ a, key a = k) l.
Proof.
  induction l as [|x l IH]; simpl; [done|].
  rewrite insert_by_filter, !(filter_cons _ x), IH. done.
Qed.

(** Sorting commutes with a map that preserves the order of keys. *)
Lemma insert_by_fmap (f : A -> A) x l :
  (∀ a b, (key (f a) <=? key (f b)) = (key a <=? key b)) ->
  insert_by key (f x) (f <$> l) = f <$> insert_by key x l.
Proof.
  intros Hf. induction l as [|y l IH]; [done|].
  rewrite fmap_cons. simpl. rewrite Hf.
  destruct (key x <=? key y); [done|].
  by rewrite fmap_cons, IH.
Qed.

Lemma sort_by_fmap (f : A -> A) l :
  (∀ a b, (key (f a) <=? key (f b)) = (key a <=? key b)) ->
  sort_by key (f <$> l) = f <$> sort_by key l.
Proof.
  intros Hf. induction l as [|x l IH]; [done|].
  rewrite fmap_cons. simpl. by rewrite IH, insert_by_fmap.
Qed.
End StableSortFacts.

(** ** Schedule builder *)

Section BuilderFacts.
Variable times : gmap string string.
Variable today : Z.

Lemma prayers_loop_acc ps sched :
  prayers_loop times today ps sched
  = (sched ++.) <$> prayers_loop times today ps [].
Proof.
  revert sched. induction ps as [|p ps IH]; intros sched; simpl.
  - by rewrite app_nil_r.
  - destruct (times !! p) as [s|]; [|apply IH].
    destruct (parse_today_dt today s) as [dtm|]; simpl; [|done].
    rewrite IH, (IH (prayer_events _ _ _)).
    destruct (prayers_loop times today ps []); simpl; [|done].
    by rewrite app_assoc.
Qed.

Lemma prayer_events_labels p dtm :
  ev_label <$> prayer_events today p dtm
  `sublist_of` p :: (if pre_applies today p then [p +:+ "-QuranPre"] else []).
Proof.
  unfold prayer_events.
  destruct (truthy (sound_for p)), (pre_applies today p); simpl;
    repeat first [done | apply sublist_skip | apply sublist_cons
                 | apply sublist_nil_l].
Qed.

Lemma prayers_loop_labels ps added :
  prayers_loop times today ps [] = Some added ->
  ev_label <$> added
  `sublist_of`
    (ps ≫= λ p, p :: if pre_applies today p then [p +:+ "-QuranPre"] else []).
Proof.
  revert added. induction ps as [|p ps IH]; intros added; simpl.
  - intros [= <-]. done.
  - destruct (times !! p) as [s|].
    + destruct (parse_today_dt today s) as [dtm|]; simpl; [|done].
      rewrite prayers_loop_acc.
      destruct (prayers_loop times today ps []) as [rest|]; simpl; [|done].
      intros [= <-]. rewrite fmap_app. simpl.
      apply (sublist_app _ (_ :: _)); [apply prayer_events_labels|].
      by apply IH.
    + intros H. apply (sublist_inserts_l (_ :: _)). by apply IH.
Qed.

Lemma prayers_loop_total ps sched :
  (∀ p s, p ∈ ps -> times !! p = Some s ->
          is_Some (Strptime.parse_clock s)) ->
  is_Some (prayers_loop times today ps sched).
Proof.
  revert sched. induction ps as [|p ps IH]; intros sched Hv; simpl; [done|].
  assert (∀ q s, q ∈ ps -> times !! q = Some s ->
                 is_Some (Strptime.parse_clock s)) as Hv'
    by (intros q s Hq; apply Hv; by right).
  destruct (times !! p) as [s|] eqn:Hp; [|by apply IH].
  destruct (Hv p s) as [tod Htod]; [by left|done|].
  unfold parse_today_dt. rewrite Htod. simpl. by apply IH.
Qed.

Lemma parse_today_dt_total s :
  is_Some (Strptime.parse_clock s) -> is_Some (parse_today_dt today s).
Proof. intros [tod H]. unfold parse_today_dt. rewrite H. by eexists. Qed.

Lemma emitted_total exists_pre :
  valid_times times -> is_Some (emitted times today exists_pre).
Proof.
  intros Hv. unfold emitted.
  destruct (prayers_loop_total PRAYERS [] Hv) as [sched ->]. simpl.
  assert (∀ p, p ∈ PRAYERS ->
               ∀ s, times !! p = Some s -> is_Some (parse_today_dt today s))
    as Hp by (intros p Hin s Hs; eapply parse_today_dt_total, Hv; done).
  assert (is_Some (isha_pre times today exists_pre sched)) as [sched' ->].
  { unfold isha_pre. destruct (times !! "Isha") as [s|] eqn:Hs; [|done].
    destruct exists_pre; [|done].
    destruct (Hp "Isha" ltac:(set_solver) s Hs) as [dt ->]. done. }
  simpl. unfold kahf. destruct (weekday today =? 4); [|done].
  destruct (times !! "Asr") as [s|] eqn:Hs; [|done].
  destruct (Hp "Asr" ltac:(set_solver) s Hs) as [dt ->]. done.
Qed.

Lemma isha_pre_shape exists_pre sched sched' :
  isha_pre times today exists_pre sched = Some sched' ->
  ∃ x, sched' = sched ++ x ∧ ev_label <$> x `sublist_of` ["Isha-Pre"].
Proof.
  unfold isha_pre. intros H.
  assert (sched' = sched ++ [] -> ∃ x, sched' = sched ++ x
            ∧ ev_label <$> x `sublist_of` ["Isha-Pre"]) as Hnil
    by (intros ->; exists []; split; [done|apply sublist_nil_l]).
  destruct (times !! "Isha") as [s|]; [destruct exists_pre|].
  - destruct (parse_today_dt today s); simplify_eq/=. by eexists.
  - simplify_eq. apply Hnil. by rewrite app_nil_r.
  - simplify_eq. apply Hnil. by rewrite app_nil_r.
Qed.

Lemma kahf_shape sched sched' :
  kahf times today sched = Some sched' ->
  ∃ y, sched' = sched ++ y ∧ ev_label <$> y `sublist_of` ["Kahf-PreAsr"].
Proof.
  unfold kahf. intros H.
  assert (sched' = sched ++ [] -> ∃ y, sched' = sched ++ y
            ∧ ev_label <$> y `sublist_of` ["Kahf-PreAsr"]) as Hnil
    by (intros ->; exists []; split; [done|apply sublist_nil_l]).
  destruct (weekday today =? 4); [destruct (times !! "Asr") as [s|]|].
  - destruct (parse_today_dt today s); simplify_eq/=. by eexists.
  - simplify_eq. apply Hnil. by rewrite app_nil_r.
  - simplify_eq. apply Hnil. by rewrite app_nil_r.
Qed.

Lemma emitted_labels exists_pre sched :
  emitted times today exists_pre = Some sched ->
  ev_label <$> sched `sublist_of` labels_on today.
Proof.
  unfold labels_on. set (L := PRAYERS ≫= _).
  assert (∀ s1, prayers_loop times today PRAYERS [] = Some s1 ->
                ev_label <$> s1 `sublist_of` L) as HL
    by apply prayers_loop_labels.
  clearbody L. unfold emitted.
  destruct (prayers_loop times today PRAYERS []) as [s1|] eqn:H1;
    simpl; [|done].
  specialize (HL s1 eq_refl). clear H1.
  destruct (isha_pre times today exists_pre s1) as [s2|] eqn:H2;
    simpl; [|done].
  apply isha_pre_shape in H2 as (x & -> & Hx).
  intros (y & -> & Hy)%kahf_shape. unfold morning.
  rewrite !fmap_app. simpl. rewrite <-!app_assoc.
  apply sublist_app; [done|].
  apply (sublist_app _ [_]); [done|].
  by apply sublist_skip.
Qed.
End BuilderFacts.

Lemma labels_on_sublist today : labels_on today `sublist_of` ALL_LABELS.
Proof.
  unfold labels_on, pre_applies.
  destruct (weekday today =? 4); cbv;
    repeat first [apply sublist_nil_l | apply sublist_skip | apply sublist_cons].
Qed.

Lemma ALL_LABELS_NoDup : NoDup ALL_LABELS.
Proof. apply (bool_decide_unpack _). vm_compute. exact I. Qed.

Lemma NoDup_fmap_eq {A B} (f : A -> B) (l : list A) x y :
  NoDup (f <$> l) -> x ∈ l -> y ∈ l -> f x = f y -> x = y.
Proof.
  induction l as [|a l IH]; [by intros _ ?%elem_of_nil|].
  rewrite fmap_cons, NoDup_cons. intros [Hna Hnd] Hx Hy Hf.
  apply elem_of_cons in Hx as [->|Hx]; apply elem_of_cons in Hy as [->|Hy].
  - done.
  - destruct Hna. rewrite Hf. by apply list_elem_of_fmap_2.
  - destruct Hna. rewrite <-Hf. by apply list_elem_of_fmap_2.
  - by apply IH.
Qed.

Lemma build_emitted env sched :
  build_today_schedule env = Some sched ->
  ∃ times em, env_fetch env = Some times
    ∧ emitted times (env_today env) (env_isha_pre_exists env) = Some em
    ∧ sched = sort_by ev_at em.
Proof.
  unfold build_today_schedule, emit_today_schedule.
  destruct (env_fetch env) as [times|]; simpl; [|done].
  destruct (emitted _ _ _) as [em|] eqn:Hem; simpl; [|done].
  intros [= <-]. by exists times, em.
Qed.

Lemma build_labels_NoDup env sched :
  build_today_schedule env = Some sched -> NoDup (ev_label <$> sched).
Proof.
  intros (times & em & _ & Hem & ->)%build_emitted.
  rewrite sort_by_perm.
  apply (sublist_NoDup _ ALL_LABELS); [apply ALL_LABELS_NoDup|].
  etrans; [by eapply emitted_labels | apply labels_on_sublist].
Qed.

Lemma build_keys_NoDup env sched :
  build_today_schedule env = Some sched -> NoDup (key_of <$> sched).
Proof.
  intros H%build_labels_NoDup.
  apply (NoDup_fmap_1 (λ k, k.1.1)). by rewrite <-list_fmap_compose.
Qed.

Lemma parse_today_dt_clock today s tod :
  Strptime.parse_clock s = Some tod ->
  parse_today_dt today s = Some (combine today tod).
Proof. intros H. unfold parse_today_dt. by rewrite H. Qed.

Lemma on_day_order d a b :
  (ev_at (on_day d a) <=? ev_at (on_day d b)) = (ev_at a <=? ev_at b).
Proof.
  unfold on_day, combine. simpl.
  destruct (Z.leb_spec (ev_at a) (ev_at b)), (Z.leb_spec (d * US_PER_DAY + ev_at a) (d * US_PER_DAY + ev_at b)); lia.
Qed.

Lemma prayers_loop_hit times today p ps sched s tod :
  times !! p = Some s -> Strptime.parse_clock s = Some tod ->
  prayers_loop times today (p :: ps) sched
  = prayers_loop times today ps
      (sched ++ prayer_events today p (combine today tod)).
Proof.
  intros Hp Hs. simpl. by rewrite Hp, (parse_today_dt_clock _ _ _ Hs).
Qed.

Lemma spec_emitted_on today :
  weekday today ≠ 4 ->
  emitted spec_times today true = Some (on_day today <$> spec_emitted).
Proof.
  intros Hw. apply Z.eqb_neq in Hw.
  unfold emitted, PRAYERS.
  rewrite (prayers_loop_hit _ _ "Fajr" _ _ "05:30AM" (hms 5 30 0)),
    (prayers_loop_hit _ _ "Dhuhr" _ _ "12:15PM" (hms 12 15 0)),
    (prayers_loop_hit _ _ "Asr" _ _ "3:45PM" (hms 15 45 0)),
    (prayers_loop_hit _ _ "Maghrib" _ _ "6:50PM" (hms 18 50 0)),
    (prayers_loop_hit _ _ "Isha" _ _ "8:10PM" (hms 20 10 0))
    by (vm_compute; reflexivity).
  cbn [prayers_loop mbind option_bind].
  unfold isha_pre, kahf, morning.
  replace (spec_times !! "Isha") with (Some "8:10PM") by (vm_compute; reflexivity).
  rewrite (parse_today_dt_clock _ _ (hms 20 10 0)) by (vm_compute; reflexivity).
  rewrite Hw. cbn [mbind option_bind].
  unfold prayer_events, pre_applies. rewrite Hw.
  cbn -[combine hms dtime minutes seconds Z.sub Z.add Z.mul].
  unfold on_day. cbn [ev_label ev_at ev_kind ev_payload].
  repeat f_equal; try reflexivity;
    unfold combine, dtime, hms, minutes, seconds, US_PER_DAY, US_PER_SEC; lia.
Qed.

Lemma spec_emitted_sorted : sort_by ev_at spec_emitted = spec_day.
Proof. vm_compute. reflexivity. Qed.

(** C3: for the five times of the worked example, on a day that is not a
    Friday and with the Isha pre-file present, the builder returns exactly
    the eleven events of [spec_day] on that day, in ascending order:
    pre-clips at 05:25, 12:10, 15:40 and 18:45, the prayers at 05:30, 12:15,
    15:45, 18:50 and 20:10, the Isha pre-event at 19:50:33 and the morning
    event at 06:30. *)
Theorem spec_day_schedule (env : Env) :
  env_fetch env = Some spec_times ->
  env_isha_pre_exists env = true ->
  weekday (env_today env) ≠ 4 ->
  build_today_schedule env = Some (on_day (env_today env) <$> spec_day)
  ∧ ascending (on_day (env_today env) <$> spec_day).
Proof.
  intros Hf Hi Hw.
  assert (build_today_schedule env
          = Some (on_day (env_today env) <$> spec_day)) as Hb.
  { assert (emit_today_schedule env
            = Some (on_day (env_today env) <$> spec_emitted)) as Hem.
    { unfold emit_today_schedule. rewrite Hf, Hi.
      apply (spec_emitted_on _ Hw). }
    unfold build_today_schedule. rewrite Hem.
    change (Some (sort_by ev_at (on_day (env_today env) <$> spec_emitted))
            = Some (on_day (env_today env) <$> spec_day)).
    rewrite sort_by_fmap by apply on_day_order.
    by rewrite spec_emitted_sorted. }
  split; [done|].
  apply build_emitted in Hb as (_ & em & _ & _ & ->). apply sort_by_sorted.
Qed.

Lemma spec_day_schedule_witness :
  env_fetch spec_env = Some spec_times
  ∧ env_isha_pre_exists spec_env = true
  ∧ weekday (env_today spec_env) ≠ 4
  ∧ build_today_schedule spec_env = Some (on_day 739923 <$> spec_day)
  ∧ ascending (on_day 739923 <$> spec_day).
Proof.
  assert (weekday (env_today spec_env) ≠ 4) as Hw
    by (vm_compute; discriminate).
  split; [reflexivity|]. split; [reflexivity|]. split; [exact Hw|].
  exact (spec_day_schedule spec_env eq_refl eq_refl Hw).
Defined.

(** C10: in one generation all labels are distinct, hence so are the keys
    of the fired set, and two events of the generation with the same key
    are the same event. *)
Theorem generation_labels_distinct (env : Env) (sched : list event) :
  build_today_schedule env = Some sched ->
  NoDup (ev_label <$> sched)
  ∧ NoDup (key_of <$> sched)
  ∧ ∀ e1 e2, e1 ∈ sched -> e2 ∈ sched -> key_of e1 = key_of e2 -> e1 = e2.
Proof.
  intros Hb. split; [by eapply build_labels_NoDup|].
  split; [by eapply build_keys_NoDup|].
  intros e1 e2. apply NoDup_fmap_eq. by eapply build_keys_NoDup.
Qed.

Lemma generation_labels_distinct_witness :
  build_today_schedule spec_env = Some (on_day 739923 <$> spec_day)
  ∧ NoDup (ev_label <$> (on_day 739923 <$> spec_day))
  ∧ NoDup (key_of <$> (on_day 739923 <$> spec_day))
  ∧ ∀ e1 e2, e1 ∈ on_day 739923 <$> spec_day ->
             e2 ∈ on_day 739923 <$> spec_day ->
             key_of e1 = key_of e2 -> e1 = e2.
Proof.
  assert (build_today_schedule spec_env = Some (on_day 739923 <$> spec_day))
    as Hb by (vm_compute; reflexivity).
  split; [exact Hb|].
  exact (generation_labels_distinct spec_env _ Hb).
Defined.

(** C6: for every input whose time strings parse, the builder returns a
    list that is ascending by fire time and in which the events of any one
    fire time stand in the order in which they were emitted. *)
Theorem build_sorted_stable (env : Env) (times : gmap string string) :
  env_fetch env = Some times -> valid_times times ->
  ∃ em sched,
    emit_today_schedule env = Some em
    ∧ build_today_schedule env = Some sched
    ∧ ascending sched
    ∧ sched ≡ₚ em
    ∧ ∀ t, firing_at t sched = firing_at t em.
Proof.
  intros Hf Hv.
  destruct (emitted_total times (env_today env) (env_isha_pre_exists env) Hv)
    as [em Hem].
  assert (emit_today_schedule env = Some em) as He
    by (unfold emit_today_schedule; by rewrite Hf).
  exists em, (sort_by ev_at em).
  split; [done|]. split; [unfold build_today_schedule; by rewrite He|].
  split; [apply sort_by_sorted|]. split; [apply sort_by_perm|].
  intros t. apply sort_by_stable.
Qed.

Lemma spec_times_valid : valid_times spec_times.
Proof.
  intros p s Hp Hs. unfold PRAYERS in Hp.
  repeat (apply elem_of_cons in Hp as [->|Hp];
          [vm_compute in Hs; injection Hs as <-; vm_compute; eauto|]).
  by apply elem_of_nil in Hp.
Qed.

Lemma build_sorted_stable_witness :
  env_fetch spec_env = Some spec_times
  ∧ valid_times spec_times
  ∧ ∃ em sched,
    emit_today_schedule spec_env = Some em
    ∧ build_today_schedule spec_env = Some sched
    ∧ ascending sched
    ∧ sched ≡ₚ em
    ∧ ∀ t, firing_at t sched = firing_at t em.
Proof.
  split; [reflexivity|]. split; [apply spec_times_valid|].
  exact (build_sorted_stable spec_env spec_times eq_refl spec_times_valid).
Defined.

(** Two events of one fire time keep their order: a build in which Fajr
    is given as 6:30AM puts the prayer before the morning event. *)
Example tie_keeps_emission_order :
  ev_label <$>
    firing_at (combine 739923 (dtime 6 30))
      (default [] (build_today_schedule
         {| env_fetch := Some (<["Fajr" := "6:30AM"]> ∅);
            env_clock := combine 739923 (dtime 1 0);
            env_isha_pre_exists := true |}))
  = ["Fajr"; "Morning-Athkar"].
Proof. vm_compute. reflexivity. Qed.

Lemma friday_no_asr_pre today :
  weekday today = 4 -> "Asr-QuranPre" ∉ labels_on today.
Proof.
  intros Hw. unfold labels_on, pre_applies.
  rewrite (proj2 (Z.eqb_eq _ _) Hw).
  apply (bool_decide_unpack _). vm_compute. exact I.
Qed.

(** C7: on a Friday, when the Asr time is present, the schedule holds a
    play event for the Kahf recitation exactly 31 minutes before Asr and no
    pre-clip event for Asr. *)
Theorem friday_kahf_replaces_asr_pre (env : Env) (times : gmap string string)
    (s : string) :
  env_fetch env = Some times -> valid_times times ->
  weekday (env_today env) = 4 -> times !! "Asr" = Some s ->
  ∃ sched asr_dt,
    build_today_schedule env = Some sched
    ∧ parse_today_dt (env_today env) s = Some asr_dt
    ∧ Event "Kahf-PreAsr" (asr_dt - minutes 31) Play (Some SOUND_KAHF) ∈ sched
    ∧ ∀ e, e ∈ sched -> ev_label e ≠ "Asr-QuranPre".
Proof.
  intros Hf Hv Hw Hs.
  destruct (emitted_total times (env_today env) (env_isha_pre_exists env) Hv)
    as [em Hem].
  destruct (parse_today_dt_total (env_today env) s) as [asr_dt Hp].
  { apply (Hv "Asr"); [set_solver|done]. }
  exists (sort_by ev_at em), asr_dt.
  split. { unfold build_today_schedule, emit_today_schedule.
           rewrite Hf. simpl. by rewrite Hem. }
  split; [done|]. split.
  - rewrite sort_by_perm.
    unfold emitted in Hem.
    destruct (prayers_loop _ _ _ _) as [s1|]; simpl in Hem; [|done].
    destruct (isha_pre _ _ _ _) as [s2|]; simpl in Hem; [|done].
    unfold kahf in Hem.
    rewrite (proj2 (Z.eqb_eq _ _) Hw), Hs, Hp in Hem. simpl in Hem.
    injection Hem as <-. apply elem_of_app. right. by left.
  - intros e He Hl. apply (friday_no_asr_pre _ Hw).
    apply (sublist_subseteq _ _ (emitted_labels _ _ _ _ Hem)).
    rewrite <-Hl. apply list_elem_of_fmap_2. by rewrite <-(sort_by_perm ev_at em).
Qed.

Lemma friday_kahf_replaces_asr_pre_witness :
  env_fetch friday_env = Some spec_times
  ∧ valid_times spec_times
  ∧ weekday (env_today friday_env) = 4
  ∧ spec_times !! "Asr" = Some "3:45PM"
  ∧ ∃ sched asr_dt,
    build_today_schedule friday_env = Some sched
    ∧ parse_today_dt (env_today friday_env) "3:45PM" = Some asr_dt
    ∧ Event "Kahf-PreAsr" (asr_dt - minutes 31) Play (Some SOUND_KAHF) ∈ sched
    ∧ ∀ e, e ∈ sched -> ev_label e ≠ "Asr-QuranPre".
Proof.
  split; [reflexivity|]. split; [apply spec_times_valid|].
  split; [reflexivity|]. split; [reflexivity|].
  exact (friday_kahf_replaces_asr_pre friday_env spec_times "3:45PM"
           eq_refl spec_times_valid eq_refl eq_refl).
Defined.

(** With Asr at 3:45PM the extra event fires at 15:14. *)
Example friday_schedule :
  build_today_schedule friday_env
  = Some (on_day 739926 <$>
      [Event "Fajr-QuranPre" (hms 5 25 0) Quran None;
       Event "Fajr" (hms 5 30 0) Play (Some SOUND_FAJR);
       Event "Morning-Athkar" (hms 6 30 0) Play (Some SOUND_MORNING);
       Event "Dhuhr-QuranPre" (hms 12 10 0) Quran None;
       Event "Dhuhr" (hms 12 15 0) Play (Some SOUND_GENERAL);
       Event "Kahf-PreAsr" (hms 15 14 0) Play (Some SOUND_KAHF);
       Event "Asr" (hms 15 45 0) Play (Some SOUND_GENERAL);
       Event "Maghrib-QuranPre" (hms 18 45 0) Quran None;
       Event "Maghrib" (hms 18 50 0) Play (Some SOUND_GENERAL);
       Event "Isha-Pre" (hms 19 50 33) Play (Some SOUND_ISHA_PRE);
       Event "Isha" (hms 20 10 0) Play (Some SOUND_GENERAL)]).
Proof. vm_compute. reflexivity. Qed.

(** ** The firing pass *)

Lemma fire_loop_spec now sched F log F' :
  fire_loop now sched F = (log, F') ->
  F' = F ∪ list_to_set (key_of <$> log)
  ∧ NoDup (key_of <$> log)
  ∧ (∀ e, e ∈ log -> e ∈ sched ∧ due now e = true ∧ key_of e ∉ F)
  ∧ (∀ e, e ∈ sched -> due now e = true -> key_of e ∈ F').
Proof.
  revert F log F'. induction sched as [|a rest IH]; intros F log F'; simpl.
  - intros [= <- <-]. split; [clear; set_solver|]. split; [constructor|].
    split; intros e He; by apply elem_of_nil in He.
  - destruct (decide (key_of a ∈ F)) as [Hin|Hnin].
    { intros (-> & Hnd & Hlog & Hdue)%IH.
      split; [done|]. split; [done|]. split.
      - intros e He. destruct (Hlog e He) as (? & ? & ?).
        split; [by right|done].
      - intros e [->|He]%elem_of_cons Hd; [|by apply Hdue].
        apply elem_of_union. by left. }
    destruct (due now a) eqn:Hda.
    + destruct (fire_loop now rest ({[key_of a]} ∪ F)) as [log' F''] eqn:Hr.
      intros [= <- <-]. apply IH in Hr as (-> & Hnd & Hlog & Hdue).
      split; [rewrite fmap_cons; clear; set_solver|]. split.
      { rewrite fmap_cons. apply NoDup_cons. split; [|done].
        intros (e & Hk & He)%list_elem_of_fmap.
        destruct (Hlog e He) as (_ & _ & Hne). apply Hne.
        apply elem_of_union. left. apply elem_of_singleton. done. }
      split.
      * intros e [->|He]%elem_of_cons; [by split; [left|]|].
        destruct (Hlog e He) as (? & ? & Hne).
        split; [by right|]. split; [done|].
        intros ?. apply Hne, elem_of_union. by right.
      * intros e [->|He]%elem_of_cons Hd; [|by apply Hdue].
        apply elem_of_union. left. apply elem_of_union. left.
        by apply elem_of_singleton.
    + intros (-> & Hnd & Hlog & Hdue)%IH.
      split; [done|]. split; [done|]. split.
      * intros e He. destruct (Hlog e He) as (? & ? & ?).
        split; [by right|done].
      * intros e [->|He]%elem_of_cons Hd; [congruence|by apply Hdue].
Qed.

(** With distinct keys in the schedule, a due event that is not yet marked
    is itself dispatched. *)
Lemma fire_loop_fires now sched F e :
  NoDup (key_of <$> sched) -> e ∈ sched -> due now e = true ->
  key_of e ∉ F -> e ∈ (fire_loop now sched F).1.
Proof.
  revert F. induction sched as [|a rest IH]; intros F Hnd He Hd Hk;
    [by apply elem_of_nil in He|].
  rewrite fmap_cons in Hnd. apply NoDup_cons in Hnd as [Ha Hnd]. simpl.
  apply elem_of_cons in He as [->|He].
  - rewrite decide_False by done. rewrite Hd.
    destruct (fire_loop now rest _). by left.
  - assert (key_of e ≠ key_of a) as Hne
      by (intros Heq; apply Ha; rewrite <-Heq; by apply list_elem_of_fmap_2).
    destruct (decide (key_of a ∈ F)); [by apply IH|].
    destruct (due now a); [|by apply IH].
    specialize (IH ({[key_of a]} ∪ F) Hnd He Hd).
    destruct (fire_loop now rest _). simpl in *. right. apply IH.
    intros [?%elem_of_singleton|?]%elem_of_union; done.
Qed.

(** A pass over a schedule whose due events are all marked dispatches
    nothing and leaves the fired set as it is. *)
Lemma fire_loop_idle now sched F :
  (∀ e, e ∈ sched -> due now e = true -> key_of e ∈ F) ->
  fire_loop now sched F = ([], F).
Proof.
  induction sched as [|a rest IH]; intros H; simpl; [done|].
  assert (fire_loop now rest F = ([], F)) as Hr
    by (apply IH; intros e He; apply H; by right).
  destruct (decide (key_of a ∈ F)) as [|Hn]; [done|].
  destruct (due now a) eqn:Hd; [|done].
  destruct Hn. apply H; [by left|done].
Qed.

(** ** The engine loop *)

(** The flag update at the end of an iteration never takes effect: when no
    refresh was due the flag is already set or it is before 02:00, and a
    rebuild sets the flag from the same [now]. *)
Lemma late_flag_steady now s :
  should_refresh now (last_refresh_date s) (refreshed_after_2am s) = false ->
  late_flag now s = false.
Proof.
  unfold should_refresh, late_flag.
  destruct (last_refresh_date s) as [d|]; [|done].
  destruct (negb (date_of now =? d)); [done|].
  destruct (negb (refreshed_after_2am s) && (dtime 2 0 <=? time_of now));
    [done|]. done.
Qed.

Lemma late_flag_rebuilt now sched F d :
  late_flag now {| schedule := sched; fired := F; last_refresh_date := d;
                   refreshed_after_2am := dtime 2 0 <=? time_of now |} = false.
Proof. unfold late_flag. simpl. by destruct (dtime 2 0 <=? time_of now). Qed.

Lemma fire_and_sleep_spec now s :
  late_flag now s = false ->
  fire_and_sleep now s
  = {| out_state := {| schedule := schedule s;
                       fired := (fire_loop now (schedule s) (fired s)).2;
                       last_refresh_date := last_refresh_date s;
                       refreshed_after_2am := refreshed_after_2am s |};
       out_log := (fire_loop now (schedule s) (fired s)).1;
       out_sleep := POLL_SEC |}.
Proof.
  intros H. unfold fire_and_sleep. rewrite H.
  by destruct (fire_loop now (schedule s) (fired s)).
Qed.

(** An iteration that does not replace the schedule either failed to
    rebuild and changed nothing, or had no refresh due and ran the firing
    pass on the state as it was. *)
Lemma tick_same_generation s i :
  rebuilds s i = false ->
  tick s i = {| out_state := s; out_log := []; out_sleep := 300 |}
  ∨ should_refresh (tk_now i) (last_refresh_date s) (refreshed_after_2am s)
    = false
    ∧ tick s i = fire_and_sleep (tk_now i) s.
Proof.
  unfold rebuilds, tick.
  destruct (should_refresh _ _ _); simpl; [|by right].
  destruct (build_today_schedule (tk_env i)); simpl; [done|by left].
Qed.

Lemma tick_generation_facts s i :
  rebuilds s i = false ->
  schedule (out_state (tick s i)) = schedule s
  ∧ last_refresh_date (out_state (tick s i)) = last_refresh_date s
  ∧ refreshed_after_2am (out_state (tick s i)) = refreshed_after_2am s
  ∧ fired (out_state (tick s i))
    = fired s ∪ list_to_set (key_of <$> out_log (tick s i))
  ∧ NoDup (key_of <$> out_log (tick s i))
  ∧ ∀ e, e ∈ out_log (tick s i) ->
         e ∈ schedule s ∧ due (tk_now i) e = true ∧ key_of e ∉ fired s.
Proof.
  intros [->|[Hr ->]]%tick_same_generation; simpl.
  - split; [done|]. split; [done|]. split; [done|].
    split; [clear; set_solver|]. split; [constructor|].
    intros e He. by apply elem_of_nil in He.
  - rewrite (fire_and_sleep_spec _ _ (late_flag_steady _ _ Hr)). simpl.
    destruct (fire_loop (tk_now i) (schedule s) (fired s)) as [log F'] eqn:Hf.
    apply fire_loop_spec in Hf as (-> & Hnd & Hlog & _). simpl.
    repeat (split; [done|]). done.
Qed.

Lemma reachable_keys_NoDup s : reachable s -> NoDup (key_of <$> schedule s).
Proof.
  induction 1 as [a s Hi|s i Hs IH].
  - unfold initial_fetch in Hi.
    destruct (build_today_schedule (at_env a)) as [sched|] eqn:Hb;
      simplify_eq/=. by eapply build_keys_NoDup.
  - unfold tick.
    destruct (should_refresh _ _ _).
    + destruct (build_today_schedule (tk_env i)) as [sched|] eqn:Hb; [|done].
      rewrite fire_and_sleep_spec by apply late_flag_rebuilt. simpl.
      by eapply build_keys_NoDup.
    + unfold fire_and_sleep. by destruct (fire_loop _ _ _).
Qed.

(** Within one generation the schedule stays, the fired set grows by the
    keys dispatched, and no key is dispatched twice. *)
Lemma run_generation s tks :
  same_generation s tks ->
  schedule (run s tks).1 = schedule s
  ∧ fired (run s tks).1 = fired s ∪ list_to_set (key_of <$> (run s tks).2)
  ∧ NoDup (key_of <$> (run s tks).2)
  ∧ ∀ e, e ∈ (run s tks).2 -> e ∈ schedule s ∧ key_of e ∉ fired s.
Proof.
  revert s. induction tks as [|i tks IH]; intros s; simpl.
  - intros _. split; [done|]. split; [clear; set_solver|].
    split; [constructor|]. intros e He. by apply elem_of_nil in He.
  - intros [Hi Hg].
    destruct (tick_generation_facts s i Hi) as (Hs & _ & _ & Hf & Hnd & Hlog).
    destruct (IH _ Hg) as (Hs' & Hf' & Hnd' & Hlog').
    destruct (run (out_state (tick s i)) tks) as [s' log]. simpl in *.
    split; [congruence|]. split.
    { rewrite Hf', Hf, fmap_app, list_to_set_app_L. clear. set_solver. }
    split.
    { rewrite fmap_app. apply NoDup_app. split; [done|]. split; [|done].
      intros k Hk (e & -> & He)%list_elem_of_fmap.
      destruct (Hlog' e He) as [_ Hn]. apply Hn. rewrite Hf.
      apply elem_of_union. right. by apply elem_of_list_to_set. }
    intros e [He|He]%elem_of_app.
    + destruct (Hlog e He) as (? & _ & ?). done.
    + destruct (Hlog' e He) as [He1 He2]. split; [congruence|].
      intros ?. apply He2. rewrite Hf. apply elem_of_union. by left.
Qed.

(** Repeating an iteration at the same [now], with no refresh due and
    every due event marked, does nothing. *)
Lemma run_idle now s tks :
  should_refresh now (last_refresh_date s) (refreshed_after_2am s) = false ->
  (∀ e, e ∈ schedule s -> due now e = true -> key_of e ∈ fired s) ->
  Forall (λ i, tk_now i = now) tks ->
  run s tks = (s, []).
Proof.
  intros Hr Hd. induction 1 as [|i tks Hi _ IH]; simpl; [done|].
  assert (tick s i = {| out_state := s; out_log := []; out_sleep := POLL_SEC |})
    as ->.
  { unfold tick. rewrite Hi, Hr.
    rewrite fire_and_sleep_spec by by apply late_flag_steady.
    rewrite (fire_loop_idle _ _ _ Hd). by destruct s. }
  simpl. by rewrite IH.
Qed.

Lemma filter_eq_absent {A} `{EqDecision A} (l : list A) (x : A) :
  x ∉ l -> filter (λ y, y = x) l = [].
Proof.
  induction l as [|a l IH]; [done|]. intros Hn.
  apply not_elem_of_cons in Hn as [Hne Hn].
  rewrite filter_cons, decide_False by done. by apply IH.
Qed.

Lemma NoDup_filter_eq_length {A} `{EqDecision A} (l : list A) (x : A) :
  NoDup l -> x ∈ l -> List.length (filter (λ y, y = x) l) = 1%nat.
Proof.
  induction 1 as [|a l Ha Hnd IH]; [by intros ?%elem_of_nil|].
  rewrite filter_cons. intros [->|Hx]%elem_of_cons.
  - rewrite decide_True by done. simpl. by rewrite filter_eq_absent.
  - rewrite decide_False by (intros ->; done). by apply IH.
Qed.

(** C1: within one generation (a run of iterations none of which replaces
    the schedule) no key is dispatched twice and no key already in the
    fired set is dispatched, every key dispatched is added to the fired
    set, and when the iterations all read the same [now] with no refresh
    due, every due event of the schedule that was not yet marked is
    dispatched exactly once. *)
Theorem each_event_fires_once (s : State) (tks : list Tick) :
  reachable s -> same_generation s tks ->
  schedule (run s tks).1 = schedule s
  ∧ fired (run s tks).1 = fired s ∪ list_to_set (key_of <$> (run s tks).2)
  ∧ NoDup (key_of <$> (run s tks).2)
  ∧ (∀ e, e ∈ (run s tks).2 -> e ∈ schedule s ∧ key_of e ∉ fired s)
  ∧ ∀ now,
      tks ≠ [] -> Forall (λ i, tk_now i = now) tks ->
      should_refresh now (last_refresh_date s) (refreshed_after_2am s) = false ->
      ∀ e, e ∈ schedule s -> due now e = true -> key_of e ∉ fired s ->
           List.length (filter (λ x, x = e) (run s tks).2) = 1%nat.
Proof.
  intros Hreach Hgen.
  destruct (run_generation s tks Hgen) as (Hs & Hf & Hnd & Hlog).
  repeat (split; [done|]).
  intros now Hne Hall Hr e He Hd Hk.
  apply NoDup_filter_eq_length; [by apply NoDup_fmap_1 in Hnd|].
  destruct tks as [|i tks]; [done|]. clear Hne Hs Hf Hnd Hlog.
  apply Forall_cons in Hall as [Hi Hall]. simpl.
  assert (tick s i = fire_and_sleep now s) as Ht
    by (unfold tick; by rewrite Hi, Hr).
  rewrite Ht, fire_and_sleep_spec by by apply late_flag_steady.
  simpl.
  pose proof (fire_loop_fires now (schedule s) (fired s) e
                (reachable_keys_NoDup s Hreach) He Hd Hk) as Hin.
  destruct (fire_loop now (schedule s) (fired s)) as [log F'] eqn:Hfl.
  apply fire_loop_spec in Hfl as (_ & _ & _ & Hdue). simpl in *.
  rewrite (run_idle now); [by rewrite app_nil_r|done|done|done].
Qed.

(** C9: when a refresh is due and the builder fails, the iteration leaves
    the state as it was, dispatches nothing, and sleeps for 300 seconds,
    longer than the poll interval. *)
Theorem failed_refresh_keeps_state (s : State) (i : Tick) :
  should_refresh (tk_now i) (last_refresh_date s) (refreshed_after_2am s) = true ->
  build_today_schedule (tk_env i) = None ->
  out_state (tick s i) = s
  ∧ out_log (tick s i) = []
  ∧ out_sleep (tick s i) = 300
  ∧ POLL_SEC < out_sleep (tick s i).
Proof. intros Hr Hb. unfold tick. rewrite Hr, Hb. done. Qed.

Lemma each_event_fires_once_witness :
  reachable spec_state
  ∧ same_generation spec_state [fajr_tick; fajr_tick]
  ∧ schedule (run spec_state [fajr_tick; fajr_tick]).1 = schedule spec_state
  ∧ fired (run spec_state [fajr_tick; fajr_tick]).1
    = fired spec_state
      ∪ list_to_set (key_of <$> (run spec_state [fajr_tick; fajr_tick]).2)
  ∧ NoDup (key_of <$> (run spec_state [fajr_tick; fajr_tick]).2)
  ∧ (∀ e, e ∈ (run spec_state [fajr_tick; fajr_tick]).2 ->
          e ∈ schedule spec_state ∧ key_of e ∉ fired spec_state)
  ∧ ∀ now,
      [fajr_tick; fajr_tick] ≠ [] ->
      Forall (λ i, tk_now i = now) [fajr_tick; fajr_tick] ->
      should_refresh now (last_refresh_date spec_state)
        (refreshed_after_2am spec_state) = false ->
      ∀ e, e ∈ schedule spec_state -> due now e = true ->
           key_of e ∉ fired spec_state ->
           List.length (filter (λ x, x = e)
                          (run spec_state [fajr_tick; fajr_tick]).2) = 1%nat.
Proof.
  assert (reachable spec_state) as Hr
    by (apply (reach_init spec_attempt); vm_compute; reflexivity).
  assert (same_generation spec_state [fajr_tick; fajr_tick]) as Hg
    by (split; [vm_compute; reflexivity|];
        split; [vm_compute; reflexivity|exact I]).
  split; [exact Hr|]. split; [exact Hg|].
  exact (each_event_fires_once spec_state [fajr_tick; fajr_tick] Hr Hg).
Defined.

(** The two iterations at 05:30:10 dispatch the Fajr call once. *)
Example fajr_fires_once :
  ev_label <$> (run spec_state [fajr_tick; fajr_tick]).2 = ["Fajr"].
Proof. vm_compute. reflexivity. Qed.

Lemma failed_refresh_keeps_state_witness :
  should_refresh (tk_now outage_tick) (last_refresh_date spec_state)
    (refreshed_after_2am spec_state) = true
  ∧ build_today_schedule (tk_env outage_tick) = None
  ∧ out_state (tick spec_state outage_tick) = spec_state
  ∧ out_log (tick spec_state outage_tick) = []
  ∧ out_sleep (tick spec_state outage_tick) = 300
  ∧ POLL_SEC < out_sleep (tick spec_state outage_tick).
Proof.
  split; [vm_compute; reflexivity|]. split; [reflexivity|].
  apply (failed_refresh_keeps_state spec_state outage_tick);
    [vm_compute; reflexivity | reflexivity].
Defined.

(** ** The refresh flag *)

Lemma time_of_mono_same_day a b :
  a <= b -> date_of a = date_of b -> time_of a <= time_of b.
Proof.
  intros Hab Hd. rewrite (date_time_split a), (date_time_split b) in Hab.
  rewrite Hd in Hab. unfold combine in Hab. lia.
Qed.

Lemma flag_justified_mono s built built' :
  built ⊆ built' -> flag_justified s built -> flag_justified s built'.
Proof.
  intros Hsub H Hr. destruct (H Hr) as (b & Hb & ?). exists b. split; [|done].
  by apply Hsub.
Qed.

(** An iteration whose clock reads fall on one day keeps the flag backed
    by a rebuild. *)
Lemma tick_flag_justified s i built :
  tick_ordered i -> tick_same_day i -> flag_justified s built ->
  flag_justified (out_state (tick s i))
    (built ++ if rebuilds s i then [env_clock (tk_env i)] else []).
Proof.
  intros [Ho1 Ho2] Hsd Hj. destruct (rebuilds s i) eqn:Hrb.
  - unfold rebuilds in Hrb. apply andb_true_iff in Hrb as [Hr Hb].
    apply bool_decide_eq_true in Hb as [sched Hb].
    unfold tick. rewrite Hr, Hb.
    rewrite fire_and_sleep_spec by apply late_flag_rebuilt.
    unfold flag_justified. simpl. intros H2%Z.leb_le.
    assert (date_of (env_clock (tk_env i)) = date_of (tk_today i)) as Hd.
    { apply date_of_mono in Ho1, Ho2. unfold tick_same_day in Hsd. lia. }
    exists (env_clock (tk_env i)). split; [apply elem_of_app; right; by left|].
    split; [by rewrite Hd|].
    etrans; [exact H2|]. apply time_of_mono_same_day; [done|].
    unfold tick_same_day in Hsd. congruence.
  - rewrite app_nil_r.
    destruct (tick_generation_facts s i Hrb) as (_ & Hl & Hr & _).
    unfold flag_justified. by rewrite Hl, Hr.
Qed.

Lemma run_flag_justified s tks built :
  Forall tick_ordered tks -> Forall tick_same_day tks ->
  flag_justified s built ->
  flag_justified (run s tks).1 (built ++ rebuild_instants s tks).
Proof.
  intros Ho. revert s built.
  induction Ho as [|i tks Hi _ IH]; intros s built Hsd Hj; simpl.
  - by rewrite app_nil_r.
  - apply Forall_cons in Hsd as [Hs Hsd].
    pose proof (tick_flag_justified s i built Hi Hs Hj) as Hj'.
    specialize (IH _ _ Hsd Hj'). rewrite <-app_assoc in IH.
    by destruct (run (out_state (tick s i)) tks).
Qed.

(** When the clock reads of every iteration fall on one day, the flag is
    set only for a day whose schedule was rebuilt at or after 02:00. *)
Lemma flag_justified_same_day a s tks :
  initial_fetch a = Some s -> attempt_same_day a ->
  Forall tick_ordered tks -> Forall tick_same_day tks ->
  flag_justified (run s tks).1
    (env_clock (at_env a) :: rebuild_instants s tks).
Proof.
  intros Hi [Hd Ht] Ho Hs.
  apply (run_flag_justified s tks [env_clock (at_env a)] Ho Hs).
  unfold initial_fetch in Hi.
  destruct (build_today_schedule (at_env a)); simplify_eq/=.
  unfold flag_justified. simpl. intros H2%Z.leb_le.
  exists (env_clock (at_env a)). split; [by left|]. split; [by rewrite Hd|].
  by apply Ht.
Qed.

(** C8: a refresh that starts at 23:59:58 and whose fetch returns after
    midnight stamps the new day and sets the flag from the old time of
    day.  The flag is then true for 4 November although that day's
    schedule was built at 00:00:01 and never at or after 02:00, and no
    refresh is due for the rest of the day. *)
Theorem flag_set_for_day_built_before_2am :
  initial_fetch early_attempt = Some early_state
  ∧ attempt_ordered early_attempt
  ∧ chronological early_state (at_now early_attempt) [down_tick; midnight_tick]
  ∧ (run early_state [down_tick; midnight_tick]).1 = midnight_state
  ∧ reachable midnight_state
  ∧ env_clock (at_env early_attempt)
      :: rebuild_instants early_state [down_tick; midnight_tick]
    = [combine 739923 (hms 1 0 0); combine 739924 (hms 0 0 1)]
  ∧ refreshed_after_2am midnight_state = true
  ∧ ¬ flag_justified midnight_state
        [combine 739923 (hms 1 0 0); combine 739924 (hms 0 0 1)]
  ∧ should_refresh (combine 739924 (hms 12 0 0))
      (last_refresh_date midnight_state) (refreshed_after_2am midnight_state)
    = false.
Proof.
  assert (initial_fetch early_attempt = Some early_state) as Hi
    by (vm_compute; reflexivity).
  assert ((run early_state [down_tick; midnight_tick]).1 = midnight_state)
    as Hrun by (vm_compute; reflexivity).
  split; [exact Hi|]. split; [by vm_compute|].
  split; [repeat split; by vm_compute|].
  split; [exact Hrun|]. split.
  { assert (out_state (tick (out_state (tick early_state down_tick))
                              midnight_tick) = midnight_state) as <-
      by (vm_compute; reflexivity).
    apply reach_tick, reach_tick, (reach_init early_attempt), Hi. }
  split; [vm_compute; reflexivity|]. split; [reflexivity|]. split.
  - intros H. destruct (H eq_refl) as (b & Hb & Hd & Ht).
    apply elem_of_cons in Hb as [->|Hb].
    + vm_compute in Hd. discriminate.
    + apply list_elem_of_singleton in Hb as ->. by vm_compute in Ht.
  - vm_compute. reflexivity.
Qed.

(** * Further properties of the engine loop *)

Lemma filter_ext_elem {A} (P Q : A -> Prop)
    `{!∀ x, Decision (P x)} `{!∀ x, Decision (Q x)} (l : list A) :
  (∀ x, x ∈ l -> P x ↔ Q x) -> filter P l = filter Q l.
Proof.
  induction l as [|a l IH]; intros Hext; [done|].
  rewrite !filter_cons.
  assert (filter P l = filter Q l) as ->
    by (apply IH; intros x Hx; apply Hext; by right).
  destruct (decide (P a)) as [Hp|Hp], (decide (Q a)) as [Hq|Hq]; try done.
  - destruct Hq. apply Hext; [by left|done].
  - destruct Hp. apply Hext; [by left|done].
Qed.

(** With distinct keys the pass dispatches exactly the due events whose
    key is not yet marked, in schedule order. *)
Lemma fire_loop_log now sched F :
  NoDup (key_of <$> sched) ->
  (fire_loop now sched F).1
  = filter (λ e, due now e = true ∧ key_of e ∉ F) sched.
Proof.
  revert F. induction sched as [|a rest IH]; intros F Hnd; [done|].
  rewrite fmap_cons in Hnd. apply NoDup_cons in Hnd as [Ha Hnd].
  simpl. rewrite filter_cons.
  destruct (decide (key_of a ∈ F)) as [Hin|Hnin].
  { rewrite decide_False by (intros [_ ?]; done). by apply IH. }
  destruct (due now a) eqn:Hd.
  - rewrite decide_True by done.
    specialize (IH ({[key_of a]} ∪ F) Hnd).
    destruct (fire_loop now rest ({[key_of a]} ∪ F)) as [log F'].
    simpl in *. rewrite IH. f_equal. apply filter_ext_elem.
    intros e He. split; intros [Hde Hk]; (split; [done|]).
    + intros ?. apply Hk, elem_of_union. by right.
    + intros [Hs%elem_of_singleton|?]%elem_of_union; [|done].
      apply Ha. rewrite <-Hs. by apply list_elem_of_fmap_2.
  - rewrite decide_False by (intros [? _]; done). by apply IH.
Qed.

Lemma fire_loop_sublist now sched F :
  (fire_loop now sched F).1 `sublist_of` sched.
Proof.
  revert F. induction sched as [|a rest IH]; intros F; simpl; [done|].
  destruct (decide (key_of a ∈ F)); [by apply sublist_cons|].
  destruct (due now a); [|by apply sublist_cons].
  specialize (IH ({[key_of a]} ∪ F)).
  destruct (fire_loop now rest ({[key_of a]} ∪ F)). by apply sublist_skip.
Qed.

Lemma sublist_ascending (l k : list event) :
  l `sublist_of` k -> ascending k -> ascending l.
Proof.
  unfold ascending. intros Hsub Hk.
  assert (Transitive (λ a b : event, ev_at a <= ev_at b)) as Htr
    by (intros a b c; lia).
  apply Sorted_StronglySorted in Hk; [|done].
  apply StronglySorted_Sorted.
  induction Hsub as [|x l k Hsub IH|x l k Hsub IH]; [constructor| |].
  - apply StronglySorted_inv in Hk as [Hk Hall].
    constructor; [by apply IH|].
    apply Forall_forall. intros y Hy. rewrite Forall_forall in Hall.
    apply Hall. by eapply sublist_subseteq.
  - apply StronglySorted_inv in Hk as [Hk _]. by apply IH.
Qed.

Lemma due_window now e :
  due now e = true ↔ ev_at e <= now < ev_at e + seconds TRIGGER_WINDOW_SEC.
Proof.
  unfold due. rewrite andb_true_iff, Z.leb_le, Z.ltb_lt. lia.
Qed.

(** X1: in a pass over a schedule the builder returned, an event whose key
    is not marked is dispatched exactly when [now] lies in the half-open
    minute that starts at its fire time. *)
Theorem trigger_window_boundary (env : Env) (sched : list event) (now : Z)
    (F : gset (string * Z * Z)) (e : event) :
  build_today_schedule env = Some sched -> e ∈ sched -> key_of e ∉ F ->
  e ∈ (fire_loop now sched F).1
  ↔ ev_at e <= now < ev_at e + seconds TRIGGER_WINDOW_SEC.
Proof.
  intros Hb He Hk. rewrite <-due_window.
  rewrite (fire_loop_log _ _ _ (build_keys_NoDup _ _ Hb)).
  rewrite list_elem_of_filter. naive_solver.
Qed.

(** X2: a pass dispatches events in the order of the schedule, so in
    ascending fire time when the schedule is ascending, and it never
    removes a key from the fired set. *)
Theorem dispatch_in_schedule_order (now : Z) (sched : list event)
    (F : gset (string * Z * Z)) :
  (fire_loop now sched F).1 `sublist_of` sched
  ∧ F ⊆ (fire_loop now sched F).2
  ∧ (ascending sched -> ascending (fire_loop now sched F).1).
Proof.
  split; [apply fire_loop_sublist|]. split.
  - destruct (fire_loop now sched F) as [log F'] eqn:Hf.
    apply fire_loop_spec in Hf as (-> & _). simpl.
    apply union_subseteq_l.
  - apply sublist_ascending, fire_loop_sublist.
Qed.

Lemma run_dispatch_due s tks e :
  same_generation s tks -> e ∈ (run s tks).2 ->
  ∃ i, i ∈ tks ∧ due (tk_now i) e = true.
Proof.
  revert s. induction tks as [|i tks IH]; intros s; simpl.
  - intros _ He. by apply elem_of_nil in He.
  - intros [Hi Hg].
    destruct (tick_generation_facts s i Hi) as (_ & _ & _ & _ & _ & Hlog).
    specialize (IH _ Hg).
    destruct (run (out_state (tick s i)) tks) as [s' log]. simpl in *.
    intros [He|He]%elem_of_app.
    + exists i. split; [by left|]. by apply Hlog.
    + destruct (IH He) as (j & Hj & Hd). exists j. split; [by right|done].
Qed.

(** X3: an event is lost when no iteration of its generation reads the
    clock inside its trigger window: it is not dispatched later. *)
Theorem missed_event_is_lost (s : State) (tks : list Tick) (e : event) :
  same_generation s tks ->
  (∀ i, i ∈ tks ->
        ¬ (ev_at e <= tk_now i < ev_at e + seconds TRIGGER_WINDOW_SEC)) ->
  e ∉ (run s tks).2.
Proof.
  intros Hg Hmiss He.
  destruct (run_dispatch_due s tks e Hg He) as (i & Hi & Hd).
  apply (Hmiss i Hi). by apply due_window.
Qed.

(** X4: an iteration that rebuilds starts from an empty fired set: it
    dispatches every due event of the new schedule, also one whose key was
    marked before, and afterwards the fired set holds the keys dispatched
    in this iteration and no others. *)
Theorem rebuild_refires_due_events (s : State) (i : Tick)
    (sched : list event) :
  should_refresh (tk_now i) (last_refresh_date s) (refreshed_after_2am s) = true ->
  build_today_schedule (tk_env i) = Some sched ->
  schedule (out_state (tick s i)) = sched
  ∧ out_log (tick s i) = filter (λ e, due (tk_now i) e = true) sched
  ∧ fired (out_state (tick s i))
    = list_to_set (key_of <$> out_log (tick s i)).
Proof.
  intros Hr Hb. unfold tick. rewrite Hr, Hb.
  rewrite fire_and_sleep_spec by apply late_flag_rebuilt. simpl.
  split; [done|].
  pose proof (fire_loop_log (tk_now i) sched ∅ (build_keys_NoDup _ _ Hb))
    as Hlog.
  destruct (fire_loop (tk_now i) sched ∅) as [log F'] eqn:Hf.
  apply fire_loop_spec in Hf as (-> & _). simpl in *. split.
  - rewrite Hlog. apply filter_ext_elem. intros e _.
    split; [by intros [? _]|]. intros ?. split; [done|].
    apply not_elem_of_empty.
  - apply leibniz_equiv. apply (left_id ∅ (∪)).
Qed.

Lemma tick_stamp s i :
  refreshed_after_2am (out_state (tick s i))
  = (if rebuilds s i then dtime 2 0 <=? time_of (tk_now i)
     else refreshed_after_2am s)
  ∧ last_refresh_date (out_state (tick s i))
    = (if rebuilds s i then Some (date_of (tk_today i))
       else last_refresh_date s).
Proof.
  destruct (rebuilds s i) eqn:Hrb.
  - unfold rebuilds in Hrb. apply andb_true_iff in Hrb as [Hr Hb].
    apply bool_decide_eq_true in Hb as [sched Hb].
    unfold tick. rewrite Hr, Hb.
    by rewrite fire_and_sleep_spec by apply late_flag_rebuilt.
  - by destruct (tick_generation_facts s i Hrb) as (_ & -> & -> & _).
Qed.

(** X5: the date stamp and the flag change only in an iteration that
    rebuilds; the update of the flag after the firing pass never takes
    effect. *)
Theorem stamp_changes_only_on_rebuild (s : State) (i : Tick) :
  refreshed_after_2am (out_state (tick s i))
  = (if rebuilds s i then dtime 2 0 <=? time_of (tk_now i)
     else refreshed_after_2am s)
  ∧ last_refresh_date (out_state (tick s i))
    = (if rebuilds s i then Some (date_of (tk_today i))
       else last_refresh_date s).
Proof. apply tick_stamp. Qed.

(** X6: after a rebuild stamped with the date of [now], a refresh is due
    again on that date only if the rebuild read a time before 02:00 and
    the clock has reached 02:00; so a day sees at most two rebuilds that
    succeed. *)
Theorem refresh_due_again_only_across_2am (s : State) (i : Tick) (now' : Z) :
  rebuilds s i = true ->
  date_of (tk_today i) = date_of (tk_now i) ->
  date_of now' = date_of (tk_now i) ->
  should_refresh now' (last_refresh_date (out_state (tick s i)))
    (refreshed_after_2am (out_state (tick s i)))
  = negb (dtime 2 0 <=? time_of (tk_now i)) && (dtime 2 0 <=? time_of now').
Proof.
  intros Hrb Hd Hd'.
  destruct (tick_stamp s i) as [-> ->]. rewrite Hrb.
  unfold should_refresh. rewrite Hd, Hd', Z.eqb_refl. simpl.
  by destruct (negb _ && _).
Qed.

(** X7: a refresh that is due stays due: with the stamp not in the future
    of [now], a later reading of the clock asks for the refresh again, so
    a failed rebuild is retried by the next iteration. *)
Theorem refresh_stays_due (now now' d : Z) (after2 : bool) :
  d <= date_of now -> now <= now' ->
  should_refresh now (Some d) after2 = true ->
  should_refresh now' (Some d) after2 = true.
Proof.
  intros Hd Hle. unfold should_refresh.
  pose proof (date_of_mono _ _ Hle) as Hm.
  destruct (Z.eqb_spec (date_of now') d) as [He'|]; [|done]. simpl.
  destruct (Z.eqb_spec (date_of now) d) as [He|]; [|lia]. simpl.
  destruct after2; simpl; [done|].
  destruct (Z.leb_spec (dtime 2 0) (time_of now)) as [H2|]; [|done].
  intros _.
  assert (time_of now <= time_of now')
    by (apply time_of_mono_same_day; [done|congruence]).
  destruct (Z.leb_spec (dtime 2 0) (time_of now')); [done|lia].
Qed.

Lemma trigger_window_boundary_witness :
  build_today_schedule spec_env = Some (on_day 739923 <$> spec_day)
  ∧ fajr_event ∈ (on_day 739923 <$> spec_day)
  ∧ (key_of fajr_event ∉ fired spec_state)
  ∧ (fajr_event
       ∈ (fire_loop (combine 739923 (hms 5 30 59))
            (on_day 739923 <$> spec_day) ∅).1
     ↔ ev_at fajr_event <= combine 739923 (hms 5 30 59)
       < ev_at fajr_event + seconds TRIGGER_WINDOW_SEC).
Proof.
  assert (build_today_schedule spec_env = Some (on_day 739923 <$> spec_day))
    as Hb by (vm_compute; reflexivity).
  assert (fajr_event ∈ (on_day 739923 <$> spec_day)) as He
    by (apply (list_elem_of_fmap_2' _ _ (Event "Fajr" (hms 5 30 0) Play
                                           (Some SOUND_FAJR)));
        [unfold spec_day;
         repeat first [apply list_elem_of_here | apply list_elem_of_further]
        | reflexivity]).
  split; [exact Hb|]. split; [exact He|].
  split; [apply not_elem_of_empty|].
  exact (trigger_window_boundary spec_env _ (combine 739923 (hms 5 30 59)) ∅
           fajr_event Hb He (not_elem_of_empty _)).
Defined.

Lemma missed_event_is_lost_witness :
  same_generation spec_state [late_tick; late_tick]
  ∧ (∀ i, i ∈ [late_tick; late_tick] ->
          ¬ (ev_at fajr_event <= tk_now i
             < ev_at fajr_event + seconds TRIGGER_WINDOW_SEC))
  ∧ fajr_event ∉ (run spec_state [late_tick; late_tick]).2.
Proof.
  assert (same_generation spec_state [late_tick; late_tick]) as Hg
    by (split; [vm_compute; reflexivity|];
        split; [vm_compute; reflexivity|exact I]).
  assert (∀ i, i ∈ [late_tick; late_tick] ->
               ¬ (ev_at fajr_event <= tk_now i
                  < ev_at fajr_event + seconds TRIGGER_WINDOW_SEC)) as Hm.
  { intros i Hi.
    assert (i = late_tick) as ->
      by (apply elem_of_cons in Hi as [->|Hi]; [done|];
          by apply list_elem_of_singleton in Hi).
    vm_compute. intros [_ H]. discriminate H. }
  split; [exact Hg|]. split; [exact Hm|].
  exact (missed_event_is_lost spec_state _ fajr_event Hg Hm).
Defined.

Lemma rebuild_refires_due_events_witness :
  should_refresh (tk_now newday_tick) (last_refresh_date spec_state)
    (refreshed_after_2am spec_state) = true
  ∧ build_today_schedule (tk_env newday_tick)
    = Some (on_day 739924 <$> spec_day)
  ∧ schedule (out_state (tick spec_state newday_tick))
    = on_day 739924 <$> spec_day
  ∧ out_log (tick spec_state newday_tick)
    = filter (λ e, due (tk_now newday_tick) e = true)
        (on_day 739924 <$> spec_day)
  ∧ fired (out_state (tick spec_state newday_tick))
    = list_to_set (key_of <$> out_log (tick spec_state newday_tick)).
Proof.
  assert (build_today_schedule (tk_env newday_tick)
          = Some (on_day 739924 <$> spec_day)) as Hb
    by (vm_compute; reflexivity).
  split; [reflexivity|]. split; [exact Hb|].
  exact (rebuild_refires_due_events spec_state newday_tick _ eq_refl Hb).
Defined.

Lemma refresh_due_again_only_across_2am_witness :
  rebuilds spec_state newday_tick = true
  ∧ date_of (tk_today newday_tick) = date_of (tk_now newday_tick)
  ∧ date_of (combine 739924 (hms 2 0 1)) = date_of (tk_now newday_tick)
  ∧ should_refresh (combine 739924 (hms 2 0 1))
      (last_refresh_date (out_state (tick spec_state newday_tick)))
      (refreshed_after_2am (out_state (tick spec_state newday_tick)))
    = negb (dtime 2 0 <=? time_of (tk_now newday_tick))
      && (dtime 2 0 <=? time_of (combine 739924 (hms 2 0 1))).
Proof.
  assert (rebuilds spec_state newday_tick = true) as Hr
    by (vm_compute; reflexivity).
  split; [exact Hr|]. split; [reflexivity|]. split; [reflexivity|].
  exact (refresh_due_again_only_across_2am spec_state newday_tick
           (combine 739924 (hms 2 0 1)) Hr eq_refl eq_refl).
Defined.

Lemma refresh_stays_due_witness :
  739923 <= date_of (combine 739923 (hms 2 0 3))
  ∧ combine 739923 (hms 2 0 3) <= combine 739923 (hms 2 5 23)
  ∧ should_refresh (combine 739923 (hms 2 0 3)) (Some 739923) false = true
  ∧ should_refresh (combine 739923 (hms 2 5 23)) (Some 739923) false = true.
Proof.
  assert (739923 <= date_of (combine 739923 (hms 2 0 3))) as H1
    by (vm_compute; discriminate).
  assert (combine 739923 (hms 2 0 3) <= combine 739923 (hms 2 5 23)) as H2
    by (vm_compute; discriminate).
  split; [exact H1|]. split; [exact H2|]. split; [reflexivity|].
  exact (refresh_stays_due _ _ _ false H1 H2 eq_refl).
Defined.

(** * Further properties of the schedule builder *)

Lemma truthy_sound_for p : truthy (sound_for p) = true.
Proof. unfold sound_for. by destruct (String.eqb p "Fajr"). Qed.


Lemma parse_today_dt_None today s :
  parse_today_dt today s = None ↔ Strptime.parse_clock s = None.
Proof.
  unfold parse_today_dt. by destruct (Strptime.parse_clock s).
Qed.

Section BuilderShape.
Variable times : gmap string string.
Variable today : Z.

Lemma prayers_loop_closed ps added :
  prayers_loop times today ps [] = Some added ->
  added = ps ≫= events_of times today.
Proof.
  revert added. induction ps as [|p ps IH]; intros added; simpl.
  - by intros [= <-].
  - unfold events_of at 1. destruct (times !! p) as [s|].
    + destruct (parse_today_dt today s) as [dtm|]; simpl; [|done].
      rewrite prayers_loop_acc.
      destruct (prayers_loop times today ps []) as [rest|]; simpl; [|done].
      intros [= <-]. by rewrite (IH rest).
    + apply IH.
Qed.

Lemma prayers_loop_None ps sched :
  prayers_loop times today ps sched = None
  ↔ ∃ p s, p ∈ ps ∧ times !! p = Some s ∧ Strptime.parse_clock s = None.
Proof.
  revert sched. induction ps as [|p ps IH]; intros sched; simpl.
  - split; [done|]. intros (p & s & Hp & _). by apply elem_of_nil in Hp.
  - destruct (times !! p) as [s|] eqn:Hs.
    + destruct (parse_today_dt today s) as [dtm|] eqn:Hd; simpl.
      * rewrite IH. split.
        -- intros (q & s' & Hq & ?). exists q, s'. split; [by right|done].
        -- intros (q & s' & [->|Hq]%elem_of_cons & Hs' & Hn).
           ++ rewrite Hs in Hs'. injection Hs' as <-.
              apply (proj2 (parse_today_dt_None today s)) in Hn. congruence.
           ++ by exists q, s'.
      * split; [|done]. intros _. exists p, s. split; [by left|].
        split; [done|]. by apply parse_today_dt_None in Hd.
    + rewrite IH. split.
      * intros (q & s' & Hq & ?). exists q, s'. split; [by right|done].
      * intros (q & s' & [->|Hq]%elem_of_cons & Hs' & Hn); [congruence|].
        by exists q, s'.
Qed.

Lemma emitted_closed exists_pre sched :
  emitted times today exists_pre = Some sched ->
  sched = (PRAYERS ≫= events_of times today)
          ++ isha_pre_events times today exists_pre
          ++ [morning_event today] ++ kahf_events times today.
Proof.
  unfold emitted.
  destruct (prayers_loop times today PRAYERS []) as [s1|] eqn:H1; [|done].
  apply prayers_loop_closed in H1. rewrite <-H1. clear H1.
  unfold isha_pre, isha_pre_events, kahf, kahf_events, morning, morning_event.
  destruct (times !! "Isha") as [si|], (times !! "Asr") as [sa|];
    try destruct (parse_today_dt today si);
    try destruct (parse_today_dt today sa);
    destruct exists_pre, (weekday today =? 4); simpl;
    intros ?; simplify_eq; by rewrite <-?app_assoc, ?app_nil_r.
Qed.

Lemma emitted_None exists_pre :
  emitted times today exists_pre = None
  ↔ ∃ p s, p ∈ PRAYERS ∧ times !! p = Some s
           ∧ Strptime.parse_clock s = None.
Proof.
  split.
  - unfold emitted.
    destruct (prayers_loop times today PRAYERS []) as [s1|] eqn:H1; simpl.
    + unfold isha_pre, kahf.
      destruct (times !! "Isha") as [si|] eqn:Hi.
      * destruct (parse_today_dt today si) eqn:Hpi.
        -- destruct (times !! "Asr") as [sa|] eqn:Ha.
           ++ destruct (parse_today_dt today sa) eqn:Hpa.
              ** destruct exists_pre, (weekday today =? 4); done.
              ** intros _. exists "Asr", sa. split; [unfold PRAYERS; repeat first [apply list_elem_of_here | apply list_elem_of_further]|].
                 split; [done|]. by apply parse_today_dt_None in Hpa.
           ++ destruct exists_pre, (weekday today =? 4); done.
        -- intros _. exists "Isha", si. split; [unfold PRAYERS; repeat first [apply list_elem_of_here | apply list_elem_of_further]|].
           split; [done|]. by apply parse_today_dt_None in Hpi.
      * destruct (times !! "Asr") as [sa|] eqn:Ha.
        -- destruct (parse_today_dt today sa) eqn:Hpa.
           ++ destruct (weekday today =? 4); done.
           ++ intros _. exists "Asr", sa. split; [unfold PRAYERS; repeat first [apply list_elem_of_here | apply list_elem_of_further]|].
              split; [done|]. by apply parse_today_dt_None in Hpa.
        -- destruct (weekday today =? 4); done.
    + intros _. by apply prayers_loop_None in H1.
  - intros H. apply (prayers_loop_None PRAYERS []) in H.
    unfold emitted. by rewrite H.
Qed.
End BuilderShape.

(** The events of a returned schedule are those of the closed form. *)
Lemma build_closed env sched :
  build_today_schedule env = Some sched ->
  ∃ times, env_fetch env = Some times
    ∧ sched ≡ₚ (PRAYERS ≫= events_of times (env_today env))
               ++ isha_pre_events times (env_today env)
                    (env_isha_pre_exists env)
               ++ [morning_event (env_today env)]
               ++ kahf_events times (env_today env).
Proof.
  intros (times & em & Hf & Hem & ->)%build_emitted.
  exists times. split; [done|].
  rewrite sort_by_perm. by rewrite (emitted_closed _ _ _ _ Hem).
Qed.

Lemma prayer_events_label today q dtm e :
  e ∈ prayer_events today q dtm ->
  ev_label e = q ∨ ev_label e = q +:+ "-QuranPre".
Proof.
  unfold prayer_events.
  destruct (truthy (sound_for q)), (pre_applies today q); simpl;
    set_unfold; naive_solver.
Qed.

Lemma closed_label_cases times today exists_pre e :
  e ∈ (PRAYERS ≫= events_of times today)
      ++ isha_pre_events times today exists_pre
      ++ [morning_event today] ++ kahf_events times today ->
  (∃ q, q ∈ PRAYERS ∧ is_Some (times !! q)
        ∧ (ev_label e = q ∨ ev_label e = q +:+ "-QuranPre"))
  ∨ (ev_label e = "Isha-Pre" ∧ is_Some (times !! "Isha"))
  ∨ ev_label e = "Morning-Athkar"
  ∨ (ev_label e = "Kahf-PreAsr" ∧ is_Some (times !! "Asr")).
Proof.
  rewrite !elem_of_app. intros [He|[He|[He|He]]].
  - left. apply list_elem_of_bind in He as (q & He & Hq).
    exists q. split; [done|]. unfold events_of in He.
    destruct (times !! q) as [s|]; [|by apply elem_of_nil in He].
    split; [by eexists|].
    destruct (parse_today_dt today s); [|by apply elem_of_nil in He].
    by eapply prayer_events_label.
  - right. left. unfold isha_pre_events in He.
    destruct (times !! "Isha") as [s|]; [|by apply elem_of_nil in He].
    split; [|by eexists].
    destruct (parse_today_dt today s), exists_pre;
      try (by apply elem_of_nil in He).
    by apply list_elem_of_singleton in He as ->.
  - right. right. left. by apply list_elem_of_singleton in He as ->.
  - right. right. right. unfold kahf_events in He.
    destruct (times !! "Asr") as [s|]; [|by apply elem_of_nil in He].
    split; [|by eexists].
    destruct (parse_today_dt today s), (weekday today =? 4);
      try (by apply elem_of_nil in He).
    by apply list_elem_of_singleton in He as ->.
Qed.

(** Case analysis on a member of [PRAYERS]. *)
Ltac prayer_cases H :=
  unfold PRAYERS in H;
  repeat (apply elem_of_cons in H as [->|H]);
  try (by apply elem_of_nil in H).

Lemma no_pre_label today p :
  p ∈ PRAYERS -> pre_applies today p = false ->
  p +:+ "-QuranPre" ∉ labels_on today.
Proof.
  intros Hp. prayer_cases Hp; unfold pre_applies; simpl; try discriminate.
  - destruct (Z.eqb_spec (weekday today) 4) as [Hw|]; [|discriminate].
    intros _. by apply friday_no_asr_pre.
  - intros _. unfold labels_on, pre_applies.
    destruct (weekday today =? 4);
      apply (bool_decide_unpack _); vm_compute; exact I.
Qed.

(** X8: a prayer found in the scraped times gets its play event at the
    parsed time on today's date, with the Fajr file for Fajr and the
    general one otherwise; its pre-clip five minutes earlier is in the
    schedule when the guard holds, and no event carries the pre-clip label
    when it does not. *)
Theorem present_prayer_events (env : Env) (times : gmap string string)
    (sched : list event) (p s : string) (tod : Z) :
  env_fetch env = Some times ->
  build_today_schedule env = Some sched ->
  p ∈ PRAYERS -> times !! p = Some s ->
  Strptime.parse_clock s = Some tod ->
  Event p (combine (env_today env) tod) Play (Some (sound_for p)) ∈ sched
  ∧ (pre_applies (env_today env) p = true ->
     Event (p +:+ "-QuranPre") (combine (env_today env) tod - minutes 5)
       Quran None ∈ sched)
  ∧ (pre_applies (env_today env) p = false ->
     ∀ e, e ∈ sched -> ev_label e ≠ p +:+ "-QuranPre").
Proof.
  intros Hf Hb Hp Hs Htod.
  destruct (build_closed env sched Hb) as (times' & Hf' & Hperm).
  assert (times' = times) as -> by congruence.
  assert (events_of times (env_today env) p
          = prayer_events (env_today env) p (combine (env_today env) tod))
    as Hev.
  { unfold events_of. by rewrite Hs, (parse_today_dt_clock _ _ _ Htod). }
  assert (∀ e, e ∈ prayer_events (env_today env) p
                     (combine (env_today env) tod) -> e ∈ sched) as Hin.
  { intros e He. rewrite Hperm. apply elem_of_app. left.
    apply list_elem_of_bind. exists p. by rewrite Hev. }
  split; [|split].
  - apply Hin. unfold prayer_events. rewrite truthy_sound_for.
    apply elem_of_app. left. by left.
  - intros Hpre. apply Hin. unfold prayer_events. rewrite Hpre.
    apply elem_of_app. right. by left.
  - intros Hpre e He Hl. apply (no_pre_label _ _ Hp Hpre).
    apply build_emitted in Hb as (t2 & em & _ & Hem & ->).
    apply (sublist_subseteq _ _ (emitted_labels _ _ _ _ Hem)).
    rewrite <-Hl. apply list_elem_of_fmap_2.
    by rewrite <-(sort_by_perm ev_at em).
Qed.

Lemma present_prayer_events_witness :
  env_fetch friday_env = Some spec_times
  ∧ build_today_schedule friday_env
    = Some (sort_by ev_at (default [] (emit_today_schedule friday_env)))
  ∧ "Asr" ∈ PRAYERS
  ∧ spec_times !! "Asr" = Some "3:45PM"
  ∧ Strptime.parse_clock "3:45PM" = Some (hms 15 45 0)
  ∧ Event "Asr" (combine (env_today friday_env) (hms 15 45 0)) Play
      (Some (sound_for "Asr"))
    ∈ sort_by ev_at (default [] (emit_today_schedule friday_env))
  ∧ (pre_applies (env_today friday_env) "Asr" = true ->
     Event ("Asr" +:+ "-QuranPre")
       (combine (env_today friday_env) (hms 15 45 0) - minutes 5)
       Quran None
     ∈ sort_by ev_at (default [] (emit_today_schedule friday_env)))
  ∧ (pre_applies (env_today friday_env) "Asr" = false ->
     ∀ e, e ∈ sort_by ev_at (default [] (emit_today_schedule friday_env)) ->
          ev_label e ≠ "Asr" +:+ "-QuranPre").
Proof.
  assert (build_today_schedule friday_env
          = Some (sort_by ev_at (default [] (emit_today_schedule friday_env))))
    as Hb by (vm_compute; reflexivity).
  assert ("Asr" ∈ PRAYERS) as Hp by (unfold PRAYERS; repeat first [apply list_elem_of_here | apply list_elem_of_further]).
  split; [reflexivity|]. split; [exact Hb|]. split; [exact Hp|].
  split; [reflexivity|]. split; [reflexivity|].
  exact (present_prayer_events friday_env spec_times _ "Asr" "3:45PM"
           (hms 15 45 0) eq_refl Hb Hp eq_refl eq_refl).
Defined.

(** X9: a prayer missing from the scraped times leaves no event: nothing
    in the schedule carries its name or its pre-clip label, and without
    Isha there is no Isha pre-event, without Asr no Kahf event. *)
Theorem missing_prayer_leaves_no_event (env : Env)
    (times : gmap string string) (sched : list event) (p : string) :
  env_fetch env = Some times ->
  build_today_schedule env = Some sched ->
  p ∈ PRAYERS -> times !! p = None ->
  ∀ e, e ∈ sched ->
    ev_label e ≠ p ∧ ev_label e ≠ p +:+ "-QuranPre"
    ∧ (p = "Isha" -> ev_label e ≠ "Isha-Pre")
    ∧ (p = "Asr" -> ev_label e ≠ "Kahf-PreAsr").
Proof.
  intros Hf Hb Hp Hnone e He.
  destruct (build_closed env sched Hb) as (times' & Hf' & Hperm).
  assert (times' = times) as -> by congruence.
  rewrite Hperm in He.
  apply closed_label_cases in He
    as [(q & Hq & [v Hv] & Hl)|[[Hl [v Hv]]|[Hl|[Hl [v Hv]]]]].
  - prayer_cases Hp; prayer_cases Hq; try congruence;
      destruct Hl as [-> | ->]; repeat split; discriminate.
  - rewrite Hl. prayer_cases Hp; try congruence; repeat split; discriminate.
  - rewrite Hl. prayer_cases Hp; repeat split; discriminate.
  - rewrite Hl. prayer_cases Hp; try congruence; repeat split; discriminate.
Qed.

Lemma missing_prayer_leaves_no_event_witness :
  env_fetch fajr_only_env = Some (<["Fajr" := "6:30AM"]> ∅)
  ∧ build_today_schedule fajr_only_env = Some fajr_only_schedule
  ∧ "Isha" ∈ PRAYERS
  ∧ (<["Fajr" := "6:30AM"]> ∅ : gmap string string) !! "Isha" = None
  ∧ ∀ e, e ∈ fajr_only_schedule ->
      ev_label e ≠ "Isha" ∧ ev_label e ≠ "Isha" +:+ "-QuranPre"
      ∧ ("Isha" = "Isha" -> ev_label e ≠ "Isha-Pre")
      ∧ ("Isha" = "Asr" -> ev_label e ≠ "Kahf-PreAsr").
Proof.
  assert (build_today_schedule fajr_only_env = Some fajr_only_schedule)
    as Hb by (vm_compute; reflexivity).
  assert ("Isha" ∈ PRAYERS) as Hp by (unfold PRAYERS; repeat first [apply list_elem_of_here | apply list_elem_of_further]).
  split; [reflexivity|]. split; [exact Hb|]. split; [exact Hp|].
  split; [reflexivity|].
  exact (missing_prayer_leaves_no_event fajr_only_env _ _ "Isha"
           eq_refl Hb Hp eq_refl).
Defined.

(** X10: every schedule the builder returns holds the morning event at
    06:30 of today, so it is never empty; when no prayer was scraped the
    morning event is the whole schedule. *)
Theorem morning_always_scheduled (env : Env) (sched : list event) :
  build_today_schedule env = Some sched ->
  morning_event (env_today env) ∈ sched
  ∧ sched ≠ []
  ∧ (env_fetch env = Some ∅ -> sched = [morning_event (env_today env)]).
Proof.
  intros Hb.
  assert (morning_event (env_today env) ∈ sched) as Hm.
  { destruct (build_closed env sched Hb) as (times & _ & ->).
    rewrite !elem_of_app. right. right. left. by left. }
  split; [done|]. split; [by intros ->; apply elem_of_nil in Hm|].
  intros Hf. apply build_emitted in Hb as (times & em & Hf' & Hem & ->).
  assert (times = ∅) as -> by congruence.
  apply emitted_closed in Hem as ->.
  unfold events_of, isha_pre_events, kahf_events, PRAYERS. simpl.
  by rewrite !lookup_empty.
Qed.

Lemma morning_always_scheduled_witness :
  build_today_schedule fajr_only_env = Some fajr_only_schedule
  ∧ morning_event (env_today fajr_only_env) ∈ fajr_only_schedule
  ∧ fajr_only_schedule ≠ []
  ∧ (env_fetch fajr_only_env = Some ∅ ->
     fajr_only_schedule = [morning_event (env_today fajr_only_env)]).
Proof.
  assert (build_today_schedule fajr_only_env = Some fajr_only_schedule)
    as Hb by (vm_compute; reflexivity).
  split; [exact Hb|].
  exact (morning_always_scheduled fajr_only_env _ Hb).
Defined.

(** X11: the builder fails exactly when the fetch fails or when the time
    string of one of the five prayers is one that [strptime] rejects; one
    bad string is enough to lose the whole schedule. *)
Theorem build_fails_iff (env : Env) :
  build_today_schedule env = None
  ↔ env_fetch env = None
    ∨ ∃ times p s, env_fetch env = Some times ∧ p ∈ PRAYERS
        ∧ times !! p = Some s ∧ Strptime.parse_clock s = None.
Proof.
  unfold build_today_schedule, emit_today_schedule.
  destruct (env_fetch env) as [times|]; simpl.
  - pose proof (emitted_None times (env_today env) (env_isha_pre_exists env))
      as Hn.
    destruct (emitted times (env_today env) (env_isha_pre_exists env))
      as [em|]; simpl.
    + split; [done|]. intros [?|(t & p & s & [= <-] & H)]; [done|].
      assert (Some em = None) as Habs by (apply Hn; by exists p, s).
      done.
    + split; [|done]. intros _. right.
      destruct (proj1 Hn eq_refl) as (p & s & ?). by exists times, p, s.
  - split; [by left|done].
Qed.

(** * Further properties of the time parser *)

Lemma in_range_bounds lo hi c :
  Strptime.in_range lo hi c = true -> lo <= Strptime.code c <= hi.
Proof. unfold Strptime.in_range. rewrite andb_true_iff, !Z.leb_le. done. Qed.

Ltac range_facts :=
  repeat match goal with
  | H : _ && _ = true |- _ => apply andb_true_iff in H as [? ?]
  | H : Strptime.is_digit _ = true |- _ =>
      unfold Strptime.is_digit in H
  | H : Strptime.in_range _ _ _ = true |- _ => apply in_range_bounds in H
  | H : (_ =? _) = true |- _ => apply Z.eqb_eq in H
  end.

Lemma match_M_range s m pm :
  Strptime.match_M s = Some (m, pm) -> 0 <= m <= 59.
Proof.
  unfold Strptime.match_M, Strptime.or_else, Strptime.digit_val. intros H.
  repeat (case_match; simplify_option_eq); range_facts; lia.
Qed.

Lemma match_colon_range h s h' m pm :
  Strptime.match_colon h s = Some (h', m, pm) -> h' = h ∧ 0 <= m <= 59.
Proof.
  unfold Strptime.match_colon. intros H.
  destruct s as [|c r]; [done|]. destruct (Strptime.code c =? 58); [|done].
  destruct (Strptime.match_M r) as [[m' pm']|] eqn:Hm; simplify_option_eq.
  split; [done|]. by eapply match_M_range.
Qed.

Lemma match_I_range s h m pm :
  Strptime.match_I s = Some (h, m, pm) -> 1 <= h <= 12 ∧ 0 <= m <= 59.
Proof.
  unfold Strptime.match_I, Strptime.or_else, Strptime.digit_val. intros H.
  repeat (case_match; simplify_option_eq);
    repeat match goal with
    | H : Strptime.match_colon _ _ = Some _ |- _ =>
        apply match_colon_range in H as [? ?]
    | H : Strptime.match_M _ = Some _ |- _ => apply match_M_range in H
    end; range_facts; lia.
Qed.

Lemma parse_clock_range s tod :
  Strptime.parse_clock s = Some tod ->
  ∃ h m, 0 <= h <= 23 ∧ 0 <= m <= 59 ∧ tod = dtime h m.
Proof.
  unfold Strptime.parse_clock. intros H.
  destruct (Strptime.match_I s) as [[[h m] pm]|] eqn:Hi; simplify_option_eq.
  apply match_I_range in Hi as [Hh Hm].
  exists (Strptime.hour24 h pm), m. split; [|done].
  unfold Strptime.hour24. destruct pm, (Z.eqb_spec h 12); lia.
Qed.

(** X12: a time string that parses denotes a whole minute of today: the
    datetime has today's date and a time of day [hh:mm:00] with the hour
    below 24 and the minute below 60. *)
Theorem parsed_time_is_on_today (today : Z) (s : string) (dt : Z) :
  parse_today_dt today s = Some dt ->
  date_of dt = today
  ∧ ∃ h m, 0 <= h <= 23 ∧ 0 <= m <= 59 ∧ time_of dt = dtime h m.
Proof.
  unfold parse_today_dt. intros H.
  destruct (Strptime.parse_clock s) as [tod|] eqn:Hp; simplify_option_eq.
  destruct (parse_clock_range _ _ Hp) as (h & m & Hh & Hm & ->).
  assert (0 <= dtime h m < US_PER_DAY)
    by (unfold dtime, hms, seconds, US_PER_DAY, US_PER_SEC; lia).
  split; [by apply date_of_combine|].
  exists h, m. by rewrite time_of_combine.
Qed.

Lemma parsed_time_is_on_today_witness :
  parse_today_dt 739923 "12:05AM" = Some (combine 739923 (dtime 0 5))
  ∧ date_of (combine 739923 (dtime 0 5)) = 739923
  ∧ ∃ h m, 0 <= h <= 23 ∧ 0 <= m <= 59
           ∧ time_of (combine 739923 (dtime 0 5)) = dtime h m.
Proof.
  split; [reflexivity|].
  exact (parsed_time_is_on_today 739923 "12:05AM" _ eq_refl).
Defined.

Lemma clock_text_table :
  forallb (λ h, forallb (λ m, forallb (λ pad, forallb (λ pm,
    bool_decide (Strptime.parse_clock (clock_text pad h m pm)
                 = clock_value h m pm))
    [true; false]) [true; false]) (seqZ 0 100)) (seqZ 0 100) = true.
Proof. vm_compute. reflexivity. Qed.

(** X13: on every text the scraper can store (an hour of one or two
    digits, a minute of two digits, AM or PM) the parser accepts exactly
    the hours 1 to 12 with minutes up to 59; 12 AM is hour 0, 12 PM is hour
    12, and the other PM hours are twelve later.  Hour 0, hours above 12
    and minutes above 59 raise. *)
Theorem clock_text_parse (pad pm : bool) (h m : Z) :
  0 <= h <= 99 -> 0 <= m <= 99 ->
  Strptime.parse_clock (clock_text pad h m pm) = clock_value h m pm.
Proof.
  intros Hh Hm.
  assert (In h (seqZ 0 100)) as Hih
    by (apply list_elem_of_In, elem_of_seqZ; lia).
  assert (In m (seqZ 0 100)) as Him
    by (apply list_elem_of_In, elem_of_seqZ; lia).
  assert (In pad [true; false]) as Hip by (destruct pad; simpl; auto).
  assert (In pm [true; false]) as Hipm by (destruct pm; simpl; auto).
  pose proof (proj1 (forallb_forall _ _) clock_text_table h Hih) as H1.
  pose proof (proj1 (forallb_forall _ _) H1 m Him) as H2.
  pose proof (proj1 (forallb_forall _ _) H2 pad Hip) as H3.
  pose proof (proj1 (forallb_forall _ _) H3 pm Hipm) as H4.
  by apply bool_decide_eq_true in H4.
Qed.

Lemma clock_text_parse_witness :
  0 <= 12 <= 99 ∧ 0 <= 5 <= 99
  ∧ Strptime.parse_clock (clock_text false 12 5 false)
    = clock_value 12 5 false.
Proof.
  assert (0 <= 12 <= 99) as Hh by lia.
  assert (0 <= 5 <= 99) as Hm by lia.
  split; [exact Hh|]. split; [exact Hm|].
  exact (clock_text_parse false false 12 5 Hh Hm).
Defined.

(** * Further properties of the segment player *)



(** X15: with a positive duration and window, a session that runs to its
    end stores the window length modulo the duration, whatever offset it
    found in the store and whenever it started; a session that follows
    stores the same value again. *)
Theorem sessions_store_window_mod_duration (window duration : Z)
    (fuel : nat) (stored start start' : Z) :
  0 < duration -> 0 < window -> (Z.to_nat window < fuel)%nat ->
  play_quran_segment_for window fuel true true (Some duration) stored start
  = Saved (window `mod` duration)
  ∧ play_quran_segment_for window fuel true true (Some duration)
      (window `mod` duration) start'
    = Saved (window `mod` duration).
Proof.
  intros Hd Hw Hf. split; by apply segment_saves_window.
Qed.

Lemma sessions_store_window_mod_duration_witness :
  0 < 3600 ∧ 0 < 600 ∧ (Z.to_nat 600 < 601)%nat
  ∧ play_quran_segment_for 600 601 true true (Some 3600) 1234 0
    = Saved (600 `mod` 3600)
  ∧ play_quran_segment_for 600 601 true true (Some 3600) (600 `mod` 3600)
      86400
    = Saved (600 `mod` 3600).
Proof.
  assert (0 < 3600) as H1 by lia. assert (0 < 600) as H2 by lia.
  assert (Z.to_nat 600 < 601)%nat as H3 by (vm_compute; lia).
  split; [exact H1|]. split; [exact H2|]. split; [exact H3|].
  exact (sessions_store_window_mod_duration 600 3600 601 1234 0 86400
           H1 H2 H3).
Defined.

(** * Properties of the status page *)

Lemma scan_all_ahead now ordered rest i current next :
  Forall (λ x, now < x.2) rest ->
  Ui.scan now ordered rest i current next
  = (current, match next with Some _ => next | None => head rest end).
Proof.
  revert i next. induction rest as [|[p t] rest IH]; intros i next Hall.
  - simpl. by destruct next.
  - apply Forall_cons in Hall as [Ht Hall]. simpl in Ht. simpl.
    destruct (Z.leb_spec t now); [lia|].
    destruct (Z.ltb_spec now t); [|lia]. simpl.
    destruct next as [n|]; simpl; by rewrite IH.
Qed.

Lemma passed_nil_all_ahead now l :
  passed now l = [] -> Forall (λ x, now < x.2) l.
Proof.
  unfold passed. induction l as [|x l IH]; [constructor|].
  rewrite filter_cons. destruct (decide (x.2 <= now)); [done|].
  intros H. constructor; [lia|by apply IH].
Qed.

Lemma ahead_all now l : Forall (λ x, now < x.2) l -> ahead now l = l.
Proof.
  unfold ahead. induction 1 as [|x l Hx _ IH]; [done|].
  by rewrite filter_cons, decide_True, IH.
Qed.

Lemma passed_all_ahead now l : Forall (λ x, now < x.2) l -> passed now l = [].
Proof.
  unfold passed. induction 1 as [|x l Hx _ IH]; [done|].
  by rewrite filter_cons, decide_False, IH by lia.
Qed.

Lemma scan_sorted now pre rest current next :
  StronglySorted (λ a b : string * Z, a.2 <= b.2) rest ->
  Ui.scan now (pre ++ rest) rest (List.length pre) current next
  = match last (passed now rest) with
    | Some (c, _) => (Some c, head (ahead now rest))
    | None => (current, match next with Some _ => next | None => head rest end)
    end.
Proof.
  intros Hs. revert pre current next.
  induction Hs as [|[p t] rest Hs IH Hall]; intros pre current next;
    [simpl; by destruct next|].
  destruct (Z.leb_spec t now) as [Hle|Hlt].
  - simpl. destruct (Z.leb_spec t now); [|lia].
    assert ((pre ++ (p, t) :: rest) !! S (List.length pre) = head rest) as ->.
    { rewrite lookup_app_r by lia.
      replace (S (List.length pre) - List.length pre)%nat with 1%nat by lia.
      simpl. by rewrite head_lookup. }
    specialize (IH (pre ++ [(p, t)]) (Some p) (head rest)).
    rewrite <-app_assoc, length_app in IH. simpl in IH.
    rewrite Nat.add_1_r in IH. rewrite IH.
    unfold passed, ahead. rewrite !filter_cons. simpl.
    rewrite decide_True by done. rewrite decide_False by lia.
    rewrite last_cons.
    destruct (last (filter (λ x, x.2 <= now) rest)) as [[c tc]|] eqn:Hl;
      [done|].
    apply last_None in Hl. apply passed_nil_all_ahead in Hl.
    fold (ahead now rest). rewrite (ahead_all _ _ Hl). by destruct (head rest).
  - assert (Forall (λ x : string * Z, now < x.2) ((p, t) :: rest)) as Ha.
    { constructor; [done|]. eapply Forall_impl; [exact Hall|].
      simpl. intros x ?. lia. }
    rewrite (scan_all_ahead _ _ _ _ _ _ Ha).
    by rewrite (passed_all_ahead _ _ Ha).
Qed.

Lemma by_time_transitive :
  Transitive (λ a b : string * Z, a.2 <= b.2).
Proof. intros a b c. lia. Qed.

Lemma ordered_sorted (schedule : list (string * Z)) :
  StronglySorted (λ a b : string * Z, a.2 <= b.2) (sort_by snd schedule).
Proof.
  apply Sorted_StronglySorted; [apply by_time_transitive|].
  apply (sort_by_sorted snd).
Qed.

(** What [get_current_and_next] returns, in terms of the sorted items. *)
Lemma get_current_and_next_closed now schedule :
  Ui.get_current_and_next now schedule
  = match sort_by snd schedule with
    | [] => None
    | _ :: _ =>
        Some (default "Isha"
                (fst <$> last (passed now (sort_by snd schedule))),
              head (ahead now (sort_by snd schedule)))
    end.
Proof.
  unfold Ui.get_current_and_next.
  pose proof (scan_sorted now [] (sort_by snd schedule) None None
                (ordered_sorted schedule)) as Hscan.
  simpl in Hscan. rewrite Hscan. clear Hscan.
  destruct (last (passed now (sort_by snd schedule))) as [[c tc]|] eqn:Hl.
  - simpl. destruct (sort_by snd schedule) as [|x l]; [done|done].
  - apply last_None, passed_nil_all_ahead in Hl.
    rewrite (ahead_all _ _ Hl).
    by destruct (sort_by snd schedule) as [|x l].
Qed.

Lemma head_filter_sorted {A} (R : relation A) (P : A -> Prop)
    `{!∀ x, Decision (P x)} (l : list A) (x : A) :
  StronglySorted R l -> head (filter P l) = Some x ->
  x ∈ l ∧ P x ∧ ∀ y, y ∈ l -> P y -> y = x ∨ R x y.
Proof.
  induction 1 as [|a l Hs IH Hall]; [done|].
  rewrite filter_cons. destruct (decide (P a)) as [Hp|Hp].
  - simpl. intros [= <-]. split; [by left|]. split; [done|].
    intros y [->|Hy]%elem_of_cons _; [by left|].
    right. rewrite Forall_forall in Hall. by apply Hall.
  - intros Hh. destruct (IH Hh) as (Hx & Hpx & Hmin).
    split; [by right|]. split; [done|].
    intros y [->|Hy]%elem_of_cons Hpy; [done|]. by apply Hmin.
Qed.

Lemma last_filter_sorted {A} (R : relation A) (P : A -> Prop)
    `{!∀ x, Decision (P x)} (l : list A) (x : A) :
  StronglySorted R l -> last (filter P l) = Some x ->
  x ∈ l ∧ P x ∧ ∀ y, y ∈ l -> P y -> y = x ∨ R y x.
Proof.
  induction 1 as [|a l Hs IH Hall]; [done|].
  rewrite filter_cons. destruct (decide (P a)) as [Hp|Hp].
  - rewrite last_cons.
    destruct (last (filter P l)) as [z|] eqn:Hl.
    + intros [= ->]. destruct (IH eq_refl) as (Hx & Hpx & Hmax).
      split; [by right|]. split; [done|].
      intros y [->|Hy]%elem_of_cons Hpy; [|by apply Hmax].
      right. rewrite Forall_forall in Hall. by apply Hall.
    + intros [= <-]. split; [by left|]. split; [done|].
      intros y [->|Hy]%elem_of_cons Hpy; [by left|].
      apply last_None in Hl.
      by destruct (filter_nil_not_elem_of P l y Hl Hpy).
  - intros Hh. destruct (IH Hh) as (Hx & Hpx & Hmax).
    split; [by right|]. split; [done|].
    intros y [->|Hy]%elem_of_cons Hpy; [done|]. by apply Hmax.
Qed.

Lemma filter_nil_none {A} (P : A -> Prop) `{!∀ x, Decision (P x)}
    (l : list A) :
  head (filter P l) = None -> ∀ y, y ∈ l -> ¬ P y.
Proof.
  intros Hh%head_None y Hy Hp.
  by destruct (filter_nil_not_elem_of P l y Hh Hp).
Qed.

(** X16: the next prayer reported is the earliest item of the schedule
    that lies after [now]; none is reported exactly when every item has
    passed. *)
Theorem next_prayer_is_earliest_ahead (now : Z)
    (schedule : list (string * Z)) (c : string)
    (next : option (string * Z)) :
  Ui.get_current_and_next now schedule = Some (c, next) ->
  match next with
  | Some (p, t) =>
      (p, t) ∈ schedule ∧ now < t
      ∧ ∀ q u, (q, u) ∈ schedule -> now < u -> t <= u
  | None => ∀ q u, (q, u) ∈ schedule -> u <= now
  end.
Proof.
  rewrite get_current_and_next_closed.
  destruct (sort_by snd schedule) as [|x l] eqn:Ho; [done|].
  rewrite <-Ho. intros [= _ <-].
  pose proof (ordered_sorted schedule) as Hs.
  destruct (head (ahead now (sort_by snd schedule))) as [[p t]|] eqn:Hh.
  - apply (head_filter_sorted _ _ _ _ Hs) in Hh as (Hin & Hp & Hmin).
    rewrite (sort_by_perm snd schedule) in Hin. split; [done|].
    split; [done|]. intros q u Hq Hu.
    rewrite <-(sort_by_perm snd schedule) in Hq.
    destruct (Hmin (q, u) Hq Hu) as [[= _ ->]|?]; [lia|done].
  - intros q u Hq. rewrite <-(sort_by_perm snd schedule) in Hq.
    pose proof (filter_nil_none _ _ Hh (q, u) Hq) as Hn. simpl in Hn. lia.
Qed.

(** X17: the current prayer reported is the item with the latest time
    among those that have passed; when none has passed the page says Isha,
    whatever the schedule holds. *)
Theorem current_prayer_is_latest_passed (now : Z)
    (schedule : list (string * Z)) (c : string)
    (next : option (string * Z)) :
  Ui.get_current_and_next now schedule = Some (c, next) ->
  (∃ t, (c, t) ∈ schedule ∧ t <= now
        ∧ ∀ q u, (q, u) ∈ schedule -> u <= now -> u <= t)
  ∨ (c = "Isha" ∧ ∀ q u, (q, u) ∈ schedule -> now < u).
Proof.
  rewrite get_current_and_next_closed.
  destruct (sort_by snd schedule) as [|x l] eqn:Ho; [done|].
  rewrite <-Ho. intros [= <- _].
  pose proof (ordered_sorted schedule) as Hs.
  destruct (last (passed now (sort_by snd schedule))) as [[p t]|] eqn:Hl.
  - left. exists t.
    apply (last_filter_sorted _ _ _ _ Hs) in Hl as (Hin & Hp & Hmax).
    rewrite (sort_by_perm snd schedule) in Hin. split; [done|].
    split; [done|]. intros q u Hq Hu.
    rewrite <-(sort_by_perm snd schedule) in Hq.
    destruct (Hmax (q, u) Hq Hu) as [[= _ ->]|?]; [lia|done].
  - right. split; [done|]. intros q u Hq.
    rewrite <-(sort_by_perm snd schedule) in Hq.
    apply last_None, passed_nil_all_ahead in Hl.
    rewrite Forall_forall in Hl. by apply (Hl (q, u)).
Qed.

(** X18: the page fails with the index error exactly when the schedule
    holds no prayer at all. *)
Theorem empty_schedule_raises (now : Z) (schedule : list (string * Z)) :
  Ui.get_current_and_next now schedule = None ↔ schedule = [].
Proof.
  rewrite get_current_and_next_closed. split.
  - destruct (sort_by snd schedule) as [|x l] eqn:Ho; [|done].
    intros _. apply Permutation_nil_r. by rewrite <-Ho, sort_by_perm.
  - by intros ->.
Qed.

Lemma next_prayer_is_earliest_ahead_witness :
  Ui.get_current_and_next (combine 739923 (hms 6 0 0)) two_items
  = Some ("Fajr", Some ("Dhuhr", combine 739923 (hms 12 15 0)))
  ∧ (("Dhuhr", combine 739923 (hms 12 15 0)) ∈ two_items
     ∧ combine 739923 (hms 6 0 0) < combine 739923 (hms 12 15 0)
     ∧ ∀ q u, (q, u) ∈ two_items -> combine 739923 (hms 6 0 0) < u ->
              combine 739923 (hms 12 15 0) <= u).
Proof.
  split; [vm_compute; reflexivity|].
  exact (next_prayer_is_earliest_ahead (combine 739923 (hms 6 0 0))
           two_items "Fajr" (Some ("Dhuhr", combine 739923 (hms 12 15 0)))
           eq_refl).
Defined.

Lemma current_prayer_is_latest_passed_witness :
  Ui.get_current_and_next (combine 739923 (hms 6 0 0)) two_items
  = Some ("Fajr", Some ("Dhuhr", combine 739923 (hms 12 15 0)))
  ∧ ((∃ t, ("Fajr", t) ∈ two_items ∧ t <= combine 739923 (hms 6 0 0)
           ∧ ∀ q u, (q, u) ∈ two_items ->
                    u <= combine 739923 (hms 6 0 0) -> u <= t)
     ∨ ("Fajr" = "Isha"
        ∧ ∀ q u, (q, u) ∈ two_items -> combine 739923 (hms 6 0 0) < u)).
Proof.
  split; [vm_compute; reflexivity|].
  exact (current_prayer_is_latest_passed (combine 739923 (hms 6 0 0))
           two_items "Fajr" (Some ("Dhuhr", combine 739923 (hms 12 15 0)))
           eq_refl).
Defined.

(** Before the first item the page says Isha and names the first item as
    next. *)
Example before_first_item :
  Ui.get_current_and_next (combine 739923 (hms 4 0 0)) two_items
  = Some ("Isha", Some ("Fajr", combine 739923 (hms 5 30 0))).
Proof. vm_compute. reflexivity. Qed.

Lemma dict_set_fresh k v d :
  k ∉ d.*1 -> Ui.dict_set k v d = d ++ [(k, v)].
Proof.
  induction d as [|[k' v'] d IH]; [done|].
  rewrite fmap_cons, not_elem_of_cons. simpl. intros [Hne Hk].
  destruct (String.eqb_spec k' k) as [->|_]; [done|]. by rewrite IH.
Qed.

Section UiSchedule.
Variable times : gmap string string.
Variable today : Z.

Lemma schedule_loop_closed ps sched r :
  NoDup ps -> (∀ p, p ∈ ps -> p ∉ sched.*1) ->
  Ui.schedule_loop times today ps sched = Some r ->
  r = sched ++ (ps ≫= items_of times today).
Proof.
  intros Hnd. revert sched r.
  induction Hnd as [|p ps Hp Hnd IH]; intros sched r Hfresh; simpl.
  - intros [= <-]. by rewrite app_nil_r.
  - assert (∀ q, q ∈ ps -> q ∉ sched.*1) as Hfresh'
      by (intros q Hq; apply Hfresh; by right).
    unfold items_of at 1. destruct (times !! p) as [s|].
    + destruct (parse_today_dt today s) as [dt|]; simpl; [|done].
      rewrite dict_set_fresh by (apply Hfresh; by left).
      intros Hr. apply IH in Hr.
      * by rewrite Hr, <-app_assoc.
      * intros q Hq. rewrite fmap_app, not_elem_of_app. split; [by apply Hfresh'|].
        simpl. rewrite list_elem_of_singleton. by intros ->.
    + intros Hr. by apply IH in Hr.
Qed.

Lemma schedule_loop_None ps sched :
  Ui.schedule_loop times today ps sched = None
  ↔ ∃ p s, p ∈ ps ∧ times !! p = Some s ∧ Strptime.parse_clock s = None.
Proof.
  revert sched. induction ps as [|p ps IH]; intros sched; simpl.
  - split; [done|]. intros (p & s & Hp & _). by apply elem_of_nil in Hp.
  - destruct (times !! p) as [s|] eqn:Hs.
    + destruct (parse_today_dt today s) as [dtm|] eqn:Hd; simpl.
      * rewrite IH. split.
        -- intros (q & s' & Hq & ?). exists q, s'. split; [by right|done].
        -- intros (q & s' & [->|Hq]%elem_of_cons & Hs' & Hn).
           ++ rewrite Hs in Hs'. injection Hs' as <-.
              apply (proj2 (parse_today_dt_None today s)) in Hn. congruence.
           ++ by exists q, s'.
      * split; [|done]. intros _. exists p, s. split; [by left|].
        split; [done|]. by apply parse_today_dt_None in Hd.
    + rewrite IH. split.
      * intros (q & s' & Hq & ?). exists q, s'. split; [by right|done].
      * intros (q & s' & [->|Hq]%elem_of_cons & Hs' & Hn); [congruence|].
        by exists q, s'.
Qed.
End UiSchedule.

Lemma PRAYERS_NoDup : NoDup PRAYERS.
Proof. apply (bool_decide_unpack _). vm_compute. exact I. Qed.

(** X19: the page and the daemon agree: the page's [build_schedule] fails
    exactly when the daemon's builder fails, and otherwise its items are
    the five-prayer play events of the daemon's schedule, name for label
    and time for fire time. *)
Theorem page_schedule_matches_daemon (env : Env) :
  (Ui.build_schedule env = None ↔ build_today_schedule env = None)
  ∧ ∀ items sched,
      Ui.build_schedule env = Some items ->
      build_today_schedule env = Some sched ->
      ∀ p t, (p, t) ∈ items
             ↔ p ∈ PRAYERS
               ∧ Event p t Play (Some (sound_for p)) ∈ sched.
Proof.
  split.
  - unfold Ui.build_schedule, build_today_schedule, emit_today_schedule.
    destruct (env_fetch env) as [times|]; [|done].
    change (Ui.schedule_loop times (env_today env) PRAYERS [] = None
            ↔ sort_by ev_at <$> emitted times (env_today env)
                                  (env_isha_pre_exists env) = None).
    rewrite schedule_loop_None.
    rewrite <-(emitted_None times (env_today env) (env_isha_pre_exists env)).
    by destruct (emitted _ _ _).
  - intros items sched Hu Hb p t.
    destruct (build_closed env sched Hb) as (times & Hf & Hperm).
    unfold Ui.build_schedule in Hu. rewrite Hf in Hu.
    change (Ui.schedule_loop times (env_today env) PRAYERS [] = Some items)
      in Hu.
    apply schedule_loop_closed in Hu;
      [|apply PRAYERS_NoDup|intros q _ Hq; by apply elem_of_nil in Hq].
    rewrite app_nil_l in Hu. subst items. rewrite Hperm.
    rewrite list_elem_of_bind. split.
    + intros (q & Hit & Hq). unfold items_of in Hit.
      destruct (times !! q) as [s|] eqn:Hs; [|by apply elem_of_nil in Hit].
      destruct (parse_today_dt (env_today env) s) as [dt|] eqn:Hp;
        [|by apply elem_of_nil in Hit].
      apply list_elem_of_singleton in Hit as [= -> ->].
      split; [done|]. apply elem_of_app. left.
      apply list_elem_of_bind. exists q. split; [|done].
      unfold events_of. rewrite Hs, Hp. unfold prayer_events.
      rewrite truthy_sound_for. apply elem_of_app. left. by left.
    + intros [Hp He]. exists p. split; [|done].
      rewrite !elem_of_app in He. destruct He as [He|[He|[He|He]]].
      * apply list_elem_of_bind in He as (q & He & Hq).
        unfold events_of in He. unfold items_of.
        destruct (times !! q) as [s|] eqn:Hs; [|by apply elem_of_nil in He].
        destruct (parse_today_dt (env_today env) s) as [dt|] eqn:Hd;
          [|by apply elem_of_nil in He].
        unfold prayer_events in He. rewrite truthy_sound_for in He.
        apply elem_of_app in He as [He|He].
        -- apply list_elem_of_singleton in He. injection He as -> -> _.
           rewrite Hs, Hd. by left.
        -- destruct (pre_applies (env_today env) q);
             [|by apply elem_of_nil in He].
           apply list_elem_of_singleton in He. discriminate He.
      * exfalso. unfold isha_pre_events in He.
        destruct (times !! "Isha") as [s|]; [|by apply elem_of_nil in He].
        destruct (parse_today_dt (env_today env) s),
          (env_isha_pre_exists env); try (by apply elem_of_nil in He).
        apply list_elem_of_singleton in He.
        prayer_cases Hp; discriminate He.
      * exfalso. apply list_elem_of_singleton in He.
        unfold morning_event in He.
        prayer_cases Hp; discriminate He.
      * exfalso. unfold kahf_events in He.
        destruct (times !! "Asr") as [s|]; [|by apply elem_of_nil in He].
        destruct (parse_today_dt (env_today env) s),
          (weekday (env_today env) =? 4); try (by apply elem_of_nil in He).
        apply list_elem_of_singleton in He.
        prayer_cases Hp; discriminate He.
Qed.

(** * The two conditional events of the builder *)

Lemma build_parses env times sched p s :
  build_today_schedule env = Some sched -> env_fetch env = Some times ->
  p ∈ PRAYERS -> times !! p = Some s ->
  ∃ tod, Strptime.parse_clock s = Some tod.
Proof.
  intros Hb Hf Hp Hs.
  destruct (Strptime.parse_clock s) as [tod|] eqn:Hpc; [by exists tod|].
  exfalso. unfold build_today_schedule, emit_today_schedule in Hb.
  rewrite Hf in Hb.
  assert (emitted times (env_today env) (env_isha_pre_exists env) = None)
    as Hn by (apply emitted_None; by exists p, s).
  change (sort_by ev_at <$> emitted times (env_today env)
                              (env_isha_pre_exists env) = Some sched) in Hb.
  by rewrite Hn in Hb.
Qed.

(** X20: the schedule holds an event labelled Isha-Pre exactly when Isha
    was scraped and the pre-file is on disk, and it fires 19 minutes 27
    seconds before Isha; it holds an event labelled Kahf-PreAsr exactly
    when Asr was scraped and today is a Friday. *)
Theorem conditional_events (env : Env) (times : gmap string string)
    (sched : list event) :
  env_fetch env = Some times ->
  build_today_schedule env = Some sched ->
  ((∃ e, e ∈ sched ∧ ev_label e = "Isha-Pre")
   ↔ is_Some (times !! "Isha") ∧ env_isha_pre_exists env = true)
  ∧ (∀ e s tod, e ∈ sched -> ev_label e = "Isha-Pre" ->
       times !! "Isha" = Some s -> Strptime.parse_clock s = Some tod ->
       e = Event "Isha-Pre" (combine (env_today env) tod - seconds 1167)
             Play (Some SOUND_ISHA_PRE))
  ∧ ((∃ e, e ∈ sched ∧ ev_label e = "Kahf-PreAsr")
     ↔ is_Some (times !! "Asr") ∧ weekday (env_today env) = 4).
Proof.
  intros Hf Hb.
  destruct (build_closed env sched Hb) as (times' & Hf' & Hperm).
  assert (times' = times) as -> by congruence.
  assert (∀ e q, q ∈ PRAYERS -> e ∈ events_of times (env_today env) q ->
            ev_label e ≠ "Isha-Pre" ∧ ev_label e ≠ "Kahf-PreAsr") as Hpr.
  { intros e q Hq He. unfold events_of in He.
    destruct (times !! q) as [s|]; [|by apply elem_of_nil in He].
    destruct (parse_today_dt (env_today env) s);
      [|by apply elem_of_nil in He].
    apply prayer_events_label in He.
    prayer_cases Hq; destruct He as [-> | ->]; split; discriminate. }
  assert (∀ e, e ∈ sched -> ev_label e = "Isha-Pre" ->
            e ∈ isha_pre_events times (env_today env)
                  (env_isha_pre_exists env)) as Hisha.
  { intros e He Hl. rewrite Hperm, !elem_of_app in He.
    destruct He as [He|[He|[He|He]]]; [|done| |].
    - apply list_elem_of_bind in He as (q & He & Hq).
      by destruct (Hpr e q Hq He).
    - apply list_elem_of_singleton in He as ->. discriminate Hl.
    - unfold kahf_events in He.
      destruct (times !! "Asr") as [s|]; [|by apply elem_of_nil in He].
      destruct (parse_today_dt (env_today env) s),
        (weekday (env_today env) =? 4); try (by apply elem_of_nil in He).
      apply list_elem_of_singleton in He as ->. discriminate Hl. }
  assert (∀ e, e ∈ sched -> ev_label e = "Kahf-PreAsr" ->
            e ∈ kahf_events times (env_today env)) as Hkahf.
  { intros e He Hl. rewrite Hperm, !elem_of_app in He.
    destruct He as [He|[He|[He|He]]]; [| | |done].
    - apply list_elem_of_bind in He as (q & He & Hq).
      by destruct (Hpr e q Hq He).
    - unfold isha_pre_events in He.
      destruct (times !! "Isha") as [s|]; [|by apply elem_of_nil in He].
      destruct (parse_today_dt (env_today env) s),
        (env_isha_pre_exists env); try (by apply elem_of_nil in He).
      apply list_elem_of_singleton in He as ->. discriminate Hl.
    - apply list_elem_of_singleton in He as ->. discriminate Hl. }
  split; [|split].
  - split.
    + intros (e & He & Hl). specialize (Hisha e He Hl).
      unfold isha_pre_events in Hisha.
      destruct (times !! "Isha") as [s|]; [|by apply elem_of_nil in Hisha].
      split; [by eexists|].
      destruct (parse_today_dt (env_today env) s),
        (env_isha_pre_exists env); try done; by apply elem_of_nil in Hisha.
    + intros [[s Hs] Hex].
      destruct (build_parses env times sched "Isha" s Hb Hf) as [tod Htod];
        [unfold PRAYERS;
         repeat first [apply list_elem_of_here | apply list_elem_of_further]
        |done|].
      exists (Event "Isha-Pre" (combine (env_today env) tod - seconds 1167)
                Play (Some SOUND_ISHA_PRE)).
      split; [|done]. rewrite Hperm, !elem_of_app. right. left.
      unfold isha_pre_events.
      rewrite Hs, (parse_today_dt_clock _ _ _ Htod), Hex. by left.
  - intros e s tod He Hl Hs Htod. specialize (Hisha e He Hl).
    unfold isha_pre_events in Hisha.
    rewrite Hs, (parse_today_dt_clock _ _ _ Htod) in Hisha.
    destruct (env_isha_pre_exists env); [|by apply elem_of_nil in Hisha].
    by apply list_elem_of_singleton in Hisha.
  - split.
    + intros (e & He & Hl). specialize (Hkahf e He Hl).
      unfold kahf_events in Hkahf.
      destruct (times !! "Asr") as [s|]; [|by apply elem_of_nil in Hkahf].
      split; [by eexists|].
      destruct (parse_today_dt (env_today env) s);
        [|by apply elem_of_nil in Hkahf].
      destruct (Z.eqb_spec (weekday (env_today env)) 4); [done|].
      by apply elem_of_nil in Hkahf.
    + intros [[s Hs] Hw].
      destruct (build_parses env times sched "Asr" s Hb Hf) as [tod Htod];
        [unfold PRAYERS;
         repeat first [apply list_elem_of_here | apply list_elem_of_further]
        |done|].
      exists (Event "Kahf-PreAsr" (combine (env_today env) tod - minutes 31)
                Play (Some SOUND_KAHF)).
      split; [|done]. rewrite Hperm, !elem_of_app. right. right. right.
      unfold kahf_events.
      rewrite Hs, (parse_today_dt_clock _ _ _ Htod).
      rewrite (proj2 (Z.eqb_eq _ _) Hw). by left.
Qed.

Lemma conditional_events_witness :
  env_fetch friday_env = Some spec_times
  ∧ build_today_schedule friday_env
    = Some (sort_by ev_at (default [] (emit_today_schedule friday_env)))
  ∧ ((∃ e, e ∈ sort_by ev_at (default [] (emit_today_schedule friday_env))
           ∧ ev_label e = "Isha-Pre")
     ↔ is_Some (spec_times !! "Isha")
       ∧ env_isha_pre_exists friday_env = true)
  ∧ (∀ e s tod,
       e ∈ sort_by ev_at (default [] (emit_today_schedule friday_env)) ->
       ev_label e = "Isha-Pre" ->
       spec_times !! "Isha" = Some s ->
       Strptime.parse_clock s = Some tod ->
       e = Event "Isha-Pre"
             (combine (env_today friday_env) tod - seconds 1167)
             Play (Some SOUND_ISHA_PRE))
  ∧ ((∃ e, e ∈ sort_by ev_at (default [] (emit_today_schedule friday_env))
           ∧ ev_label e = "Kahf-PreAsr")
     ↔ is_Some (spec_times !! "Asr")
       ∧ weekday (env_today friday_env) = 4).
Proof.
  assert (build_today_schedule friday_env
          = Some (sort_by ev_at (default [] (emit_today_schedule friday_env))))
    as Hb by (vm_compute; reflexivity).
  split; [reflexivity|]. split; [exact Hb|].
  exact (conditional_events friday_env _ _ eq_refl Hb).
Defined.
